(** * Login, second-factor and public-file routes of the shop

    A shallow embedding of [routes/login.ts], [routes/2fa.ts] and the
    public-file route, with the collaborators they call
    ([lib/insecurity], [lib/utils], the Sequelize models, [otplib],
    [node:path]) modelled next to them, and the properties the
    specification states about them. *)

From Stdlib Require Import ZArith List Ascii String Lia Bool.
From stdpp Require Import base option decidable countable strings list gmap fin_maps.

Local Open Scope string_scope.
Local Open Scope list_scope.
Local Open Scope Z_scope.

(** ** Data model *)

(** A credential record, the row of [UserModel] the routes read.  The
    primary key is an auto-incremented integer starting at 1, so it is a
    [positive]: the JavaScript test [user.data?.id] is true exactly when
    a record is present. *)
Record User := mkUser {
  user_id : positive;
  user_email : string;
  user_password : string;
  user_totpSecret : string;
  user_role : string
}.

(** A row of [BasketModel]. *)
Record Basket := mkBasket {
  basket_id : positive;
  basket_UserId : positive
}.

(** What [utils.queryResultToJson] wraps a query result in (the constant
    [status: 'success'] is left out), with the [bid] the routes add to it
    afterwards.  This is the identity snapshot of a session. *)
Record ResponseWithUser := mkResponseWithUser {
  data : option User;
  bid : option positive
}.

(** The payload of a token: a JavaScript object read by duck typing, so
    every property the routes destructure may be absent. *)
Record Payload := mkPayload {
  pl_data : option User;
  pl_bid : option positive;
  pl_userId : option positive;
  pl_type : option string;
  pl_secret : option string
}.

(** A signed token.  The source passes it around as an opaque string; here
    its parts are kept apart: payload, issue time, expiry and signature. *)
Record Token := mkToken {
  tok_payload : Payload;
  tok_iat : Z;
  tok_exp : Z;
  tok_sig : string
}.

(** An entry of the failed-login tracker. *)
Record Attempt := mkAttempt {
  count : Z;
  lastAttempt : Z
}.

#[global] Instance User_eq_dec : EqDecision User.
Proof. solve_decision. Defined.
#[global] Instance Payload_eq_dec : EqDecision Payload.
Proof. solve_decision. Defined.
#[global] Instance Token_eq_dec : EqDecision Token.
Proof. solve_decision. Defined.

#[global] Instance User_countable : Countable User.
Proof.
  refine (inj_countable'
    (fun u => (user_id u, user_email u, user_password u, user_totpSecret u, user_role u))
    (fun t => match t with (i, e, p, s, r) => mkUser i e p s r end) _).
  intros []; reflexivity.
Defined.

#[global] Instance Payload_countable : Countable Payload.
Proof.
  refine (inj_countable'
    (fun p => (pl_data p, pl_bid p, pl_userId p, pl_type p, pl_secret p))
    (fun t => match t with (d, b, i, ty, s) => mkPayload d b i ty s end) _).
  intros []; reflexivity.
Defined.

#[global] Instance Token_countable : Countable Token.
Proof.
  refine (inj_countable'
    (fun t => (tok_payload t, tok_iat t, tok_exp t, tok_sig t))
    (fun t => match t with (p, i, e, s) => mkToken p i e s end) _).
  intros []; reflexivity.
Defined.

(** The body of a request, every field optional as in [req.body], the
    caller's address [req.ip] and the bearer token [utils.jwtFrom]
    extracts. *)
Record Request := mkRequest {
  body_email : option string;
  body_password : option string;
  body_tmpToken : option Token;
  body_totpToken : option string;
  body_setupToken : option Token;
  body_initialToken : option string;
  ip : string;
  bearer : option Token
}.

(** The bodies the handlers send. *)
Inductive Body :=
| Authentication (token : Token) (bid : positive) (umail : string)
| TotpTokenRequired (tmpToken : Token)
| Message (text : string)
| SetupData (secret : string) (email : string) (setupToken : Token)
| SetupDone
| Empty.

(** A handler either sends a response or a file, or hands an error to the next
    middleware with the status it had set on [res] by then (200 when it
    had set none). *)
Inductive Response :=
| Send (statusCode : Z) (body : Body)
| SendFile (path : string)
| Next (statusCode : Z) (error : string).

(** Calls into the Secret Comparator, logged so that a theorem can say
    that none happened. *)
Inductive ComparatorCall :=
| HashPassword (plaintext : string)
| Hash (plaintext : string)
| ConstantTimeCompare (a b : string).

(** The mutable state the routes share, with the two tables of the
    persistence layer. *)
Record World := mkWorld {
  UserModel : list User;
  BasketModel : list Basket;
  authenticatedUsers : gmap Token ResponseWithUser;
  failedLoginAttempts : gmap string Attempt;
  entropy : nat;
  comparatorCalls : list ComparatorCall
}.

(** ** Collaborators outside the routes

    The primitives the routes reach through [lib/insecurity] and
    [otplib]: the two digests, the signature under the process-wide key,
    the lifetime [lib/insecurity] gives a token, the secrets the random
    generator draws and the one-time code of a secret at a counter. *)
Class Primitives := {
  passwordDigest : string → string;
  digest : string → string;
  signature : Payload → Z → Z → string;
  expiresIn : Z;
  expiresIn_pos : 0 < expiresIn;
  secretOf : nat → string;
  secretOf_nonempty : ∀ n, secretOf n ≠ "";
  hotp : string → Z → string
}.

(** ** State and exceptions *)

Inductive Result (A : Type) :=
| Ok (a : A)
| Throw (e : string).
Arguments Ok {A} a.
Arguments Throw {A} e.

(** A computation reads and writes the [World] and may throw; what it
    wrote before throwing stays written, as in JavaScript. *)
Definition M (A : Type) : Type := World → Result A * World.

#[global] Instance M_ret : MRet M := λ A a w, (Ok a, w).
#[global] Instance M_bind : MBind M := λ A B f m w,
  match m w with
  | (Ok a, w') => f a w'
  | (Throw e, w') => (Throw e, w')
  end.

Definition throw {A} (e : string) : M A := λ w, (Throw e, w).

(** [try { m } catch (error) { h error }] *)
Definition catch {A} (m : M A) (h : string → M A) : M A := λ w,
  match m w with
  | (Ok a, w') => (Ok a, w')
  | (Throw e, w') => h e w'
  end.

Definition gets {A} (f : World → A) : M A := λ w, (Ok (f w), w).
Definition modify (f : World → World) : M unit := λ w, (Ok tt, f w).

(** A handler runs to its response; an exception nothing caught reaches
    the framework as an error. *)
Definition handle (m : M Response) (w : World) : Response * World :=
  match m w with
  | (Ok r, w') => (r, w')
  | (Throw e, w') => (Next 200 e, w')
  end.

Definition set_UserModel (f : list User → list User) (w : World) : World :=
  mkWorld (f (UserModel w)) (BasketModel w) (authenticatedUsers w)
          (failedLoginAttempts w) (entropy w) (comparatorCalls w).
Definition set_BasketModel (f : list Basket → list Basket) (w : World) : World :=
  mkWorld (UserModel w) (f (BasketModel w)) (authenticatedUsers w)
          (failedLoginAttempts w) (entropy w) (comparatorCalls w).
Definition set_authenticatedUsers
    (f : gmap Token ResponseWithUser → gmap Token ResponseWithUser) (w : World) : World :=
  mkWorld (UserModel w) (BasketModel w) (f (authenticatedUsers w))
          (failedLoginAttempts w) (entropy w) (comparatorCalls w).
Definition set_failedLoginAttempts
    (f : gmap string Attempt → gmap string Attempt) (w : World) : World :=
  mkWorld (UserModel w) (BasketModel w) (authenticatedUsers w)
          (f (failedLoginAttempts w)) (entropy w) (comparatorCalls w).
Definition set_entropy (f : nat → nat) (w : World) : World :=
  mkWorld (UserModel w) (BasketModel w) (authenticatedUsers w)
          (failedLoginAttempts w) (f (entropy w)) (comparatorCalls w).
Definition set_comparatorCalls
    (f : list ComparatorCall → list ComparatorCall) (w : World) : World :=
  mkWorld (UserModel w) (BasketModel w) (authenticatedUsers w)
          (failedLoginAttempts w) (entropy w) (f (comparatorCalls w)).

Section Routes.
Context `{Primitives}.

(** ** Persistence: [UserModel] and [BasketModel] *)

(** Modelled from the spec: the models are not among the sources;
    [findCredentialByEmailAndHash] returns the record whose email and
    stored hash equal the arguments, or nothing. *)
Definition UserModel_findOne (email password : string) : M (option User) :=
  gets (λ w, find (λ u, String.eqb (user_email u) email
                         && String.eqb (user_password u) password) (UserModel w)).

(** Modelled from the spec: [findCredentialById]; an id that is
    [undefined] finds nothing. *)
Definition UserModel_findByPk (pk : option positive) : M (option User) :=
  gets (λ w, match pk with
             | Some i => find (λ u, Pos.eqb (user_id u) i) (UserModel w)
             | None => None
             end).

(** Modelled from the spec: [saveCredential] writes the record back
    under its primary key. *)
Definition UserModel_save (u : User) : M unit :=
  modify (set_UserModel
            (map (λ v, if Pos.eqb (user_id v) (user_id u) then u else v))).

Definition nextBasketId (l : list Basket) : positive :=
  fold_right (λ b m, Pos.max (Pos.succ (basket_id b)) m) 1%positive l.

(** Modelled from the spec: [findOrCreateBasket], create-if-absent. *)
Definition BasketModel_findOrCreate (UserId : positive) : M Basket := λ w,
  match find (λ b, Pos.eqb (basket_UserId b) UserId) (BasketModel w) with
  | Some b => (Ok b, w)
  | None =>
      let b := mkBasket (nextBasketId (BasketModel w)) UserId in
      (Ok b, set_BasketModel (λ l, l ++ [b]) w)
  end.

(** ** [lib/insecurity] *)

(** Modelled from the spec: the Secret Comparator of [lib/insecurity] is
    not among the sources.  [hashPassword] is a deterministic digest; its
    calls, as those of the two operations below, are logged. *)
Definition security_hashPassword (plaintext : string) : M string := λ w,
  (Ok (passwordDigest plaintext),
   set_comparatorCalls (cons (HashPassword plaintext)) w).

(** Modelled from the spec: [hash], the digest [setup] and [disable]
    compare with; hashing [undefined] raises. *)
Definition security_hash (plaintext : option string) : M string :=
  match plaintext with
  | Some p => λ w, (Ok (digest p), set_comparatorCalls (cons (Hash p)) w)
  | None => throw "The data argument must be of type string"
  end.

(** Modelled from the spec: [constantTimeEqual], equality of the two
    digests. *)
Definition security_constantTimeCompare (a b : string) : M bool := λ w,
  (Ok (String.eqb a b), set_comparatorCalls (cons (ConstantTimeCompare a b)) w).

(** Modelled from the spec: the Signed Token Codec of [lib/insecurity]
    is not among the sources.  [authorize] signs the payload with its
    issue time and expiry. *)
Definition security_authorize (now : Z) (payload : Payload) : Token :=
  {| tok_payload := payload;
     tok_iat := now;
     tok_exp := now + expiresIn;
     tok_sig := signature payload now (now + expiresIn) |}.

(** Modelled from the spec: [verify] checks signature integrity and
    expiry; a missing token does not verify. *)
Definition security_verify (now : Z) (token : option Token) : bool :=
  match token with
  | Some t =>
      String.eqb (tok_sig t) (signature (tok_payload t) (tok_iat t) (tok_exp t))
      && (now <? tok_exp t)
  | None => false
  end.

(** Modelled from the spec: [decode] gives the payload and fails closed
    on a tampered or expired token. *)
Definition security_decode (now : Z) (token : option Token) : option Payload :=
  match token with
  | Some t => if security_verify now token then Some (tok_payload t) else None
  | None => None
  end.

(** Modelled from the spec: the Session Registry
    [security.authenticatedUsers] is not among the sources.  [put]
    registers a new mapping. *)
Definition authenticatedUsers_put (token : Token) (user : ResponseWithUser) : M unit :=
  modify (set_authenticatedUsers (insert token user)).

(** Modelled from the spec: [from] resolves the bearer token of the
    request; it is absent for a request without token, for a token never
    registered and for an expired one. *)
Definition authenticatedUsers_from (now : Z) (req : Request) : M (option ResponseWithUser) :=
  gets (λ w, match bearer req with
             | Some t => if now <? tok_exp t then authenticatedUsers w !! t else None
             | None => None
             end).

(** Modelled from the spec: [updateFrom] replaces, in place, the
    snapshot of the token the request carries. *)
Definition authenticatedUsers_updateFrom (req : Request) (user : ResponseWithUser) : M unit :=
  match bearer req with
  | Some t => modify (set_authenticatedUsers (alter (λ _, user) t))
  | None => mret tt
  end.

(** ** [lib/utils] *)

(** Modelled from the spec: [utils.queryResultToJson] is not among the
    sources; the routes read the query result under [data] of what it
    returns. *)
Definition queryResultToJson (d : option User) : ResponseWithUser :=
  {| data := d; bid := None |}.

(** ** [otplib] *)

Record AuthenticatorOptions := { window : nat }.

(** [2fa.ts], lines 16-20. *)
Definition authenticator_options : AuthenticatorOptions := {| window := 1 |}.

(** Length of a time step in seconds, the default of [otplib]. *)
Definition authenticator_step : Z := 30.

Definition authenticator_counter (epoch : Z) : Z := epoch / 1000 / authenticator_step.

(** Modelled from the spec: the epochs [otplib] tries, the current one,
    then for each [i = 1 .. window] the one [i] steps back and the one
    [i] steps ahead. *)
Definition authenticator_epochs (epoch : Z) (w : nat) : list Z :=
  epoch :: flat_map (λ i, [epoch - Z.of_nat i * authenticator_step * 1000;
                           epoch + Z.of_nat i * authenticator_step * 1000])
                    (seq 1 w).

(** Modelled from the spec: [otplib.authenticator.check(token, secret)]
    at time [epoch] (in milliseconds) is not among the sources; it is the
    standard time-step check, accepting the code of the current step and
    of the steps within [window] of it. *)
Definition authenticator_check (epoch : Z) (token secret : string) : bool :=
  existsb (λ e, String.eqb token (hotp secret (authenticator_counter e)))
          (authenticator_epochs epoch (window authenticator_options)).

(** Modelled from the spec: a code or a secret that is [undefined]
    never validates; [otplib] raises on it and the handlers answer that
    like a code that is wrong. *)
Definition authenticator_check_opt (epoch : Z) (token secret : option string) : M bool :=
  match token, secret with
  | Some t, Some s => mret (authenticator_check epoch t s)
  | _, _ => throw "Expecting token and secret to be strings"
  end.

(** Modelled from the spec: [generateSecret] draws the next secret of
    the random generator. *)
Definition authenticator_generateSecret : M string := λ w,
  (Ok (secretOf (entropy w)), set_entropy S w).

(** ** [routes/login.ts] *)

Definition FAILED_ATTEMPTS_LIMIT : Z := 5.
Definition LOCK_TIME_MS : Z := 15 * 60 * 1000.

(** The payload [security.authorize] signs when it is given the wrapped
    record: its [data] and, once set, its [bid]. *)
Definition payloadOfUser (user : ResponseWithUser) : Payload :=
  {| pl_data := data user; pl_bid := bid user;
     pl_userId := None; pl_type := None; pl_secret := None |}.

Definition tmpTokenPayload (userId : positive) : Payload :=
  {| pl_data := None; pl_bid := None;
     pl_userId := Some userId;
     pl_type := Some "password_valid_needs_second_factor_token";
     pl_secret := None |}.

(** [afterLogin], with [record] for [user.data].  The challenge checks
    it starts with only observe the user and are left out. *)
Definition afterLogin (now : Z) (record : User) (user : ResponseWithUser) : M Response :=
  catch
    (basket ← BasketModel_findOrCreate (user_id record);
     let token := security_authorize now (payloadOfUser user) in
     let user := {| data := data user; bid := Some (basket_id basket) |} in
     authenticatedUsers_put token user;;
     mret (Send 200 (Authentication token (basket_id basket) (user_email record))))
    (λ error, mret (Next 200 error)).

(** Lines 38-46, up to the first [await]: the request is answered 429
    when its key is locked; an entry whose window has passed is deleted.
    The result is the answer, if the request ends here. *)
Definition loginGuard (now : Z) (req : Request) : M (option Response) :=
  let email := default "" (body_email req) in
  let key := email +:+ ":" +:+ ip req in
  failed ← gets failedLoginAttempts;
  match failed !! key with
  | Some a =>
      if FAILED_ATTEMPTS_LIMIT <=? count a then
        if now - lastAttempt a <? LOCK_TIME_MS then
          mret (Some (Send 429
                  (Message "Too many failed login attempts. Please try again later.")))
        else
          modify (set_failedLoginAttempts (delete key));;
          mret None
      else mret None
  | None => mret None
  end.

(** Lines 47-89, the [try] block; [now] and [key] are those of line 36-37.
    [verifyPreLoginChallenges] only observes the request and is left
    out. *)
Definition loginAttempt (now : Z) (req : Request) : M Response :=
  let key := default "" (body_email req) +:+ ":" +:+ ip req in
  catch
    (let email := default "" (body_email req) in
     hashedPassword ← security_hashPassword (default "" (body_password req));
     authenticatedUser ← UserModel_findOne email hashedPassword;
     let user := queryResultToJson authenticatedUser in
     match data user with
     | Some record =>
         if negb (String.eqb (user_totpSecret record) "") then
           modify (set_failedLoginAttempts (delete key));;
           mret (Send 401 (TotpTokenRequired
                   (security_authorize now (tmpTokenPayload (user_id record)))))
         else
           modify (set_failedLoginAttempts (delete key));;
           afterLogin now record user
     | None =>
         failed ← gets failedLoginAttempts;
         match failed !! key with
         | None =>
             modify (set_failedLoginAttempts
                       (insert key {| count := 1; lastAttempt := now |}))
         | Some a =>
             modify (set_failedLoginAttempts
                       (insert key {| count := count a + 1; lastAttempt := now |}))
         end;;
         mret (Send 401 (Message "Invalid email or password."))
     end)
    (λ error, mret (Next 200 error)).

(** The handler [login()] returns, run at time [now = Date.now()] with
    nothing running between its guard and its [try] block. *)
Definition login (now : Z) (req : Request) : World → Response * World :=
  handle
    (rejected ← loginGuard now req;
     match rejected with
     | Some response => mret response
     | None => loginAttempt now req
     end).

(** ** [routes/2fa.ts] *)

Definition setupTokenPayload (secret : string) : Payload :=
  {| pl_data := None; pl_bid := None; pl_userId := None;
     pl_type := Some "totp_setup_secret";
     pl_secret := Some secret |}.

Definition isType (type : option string) (expected : string) : bool :=
  match type with
  | Some t => String.eqb t expected
  | None => false
  end.

Definition verify (now : Z) (req : Request) : World → Response * World :=
  let tmpToken := body_tmpToken req in
  let totpToken := body_totpToken req in
  handle
    (catch
       (let decoded := if security_verify now tmpToken
                       then security_decode now tmpToken else None in
        let userId := decoded ≫= pl_userId in
        let type := decoded ≫= pl_type in
        if negb (isType type "password_valid_needs_second_factor_token") then
          throw "Invalid token type"
        else
          user ← UserModel_findByPk userId;
          match user, userId with
          | Some user, Some userId =>
              isValid ← authenticator_check_opt now totpToken (Some (user_totpSecret user));
              let plainUser := queryResultToJson (Some user) in
              if negb isValid then mret (Send 401 Empty)
              else
                basket ← BasketModel_findOrCreate userId;
                let token := security_authorize now (payloadOfUser plainUser) in
                let plainUser := {| data := data plainUser;
                                    bid := Some (basket_id basket) |} in
                authenticatedUsers_put token plainUser;;
                mret (Send 200 (Authentication token (basket_id basket) (user_email user)))
          | _, _ => throw "No such user found!"
          end)
       (λ error, mret (Send 401 Empty))).

Definition status (now : Z) (req : Request) : World → Response * World :=
  handle
    (catch
       (session ← authenticatedUsers_from now req;
        match session with
        | None => throw "You need to be logged in to see this"
        | Some session =>
            match data session with
            | None => throw "Cannot read properties of null"
            | Some user =>
                if String.eqb (user_totpSecret user) "" then
                  secret ← authenticator_generateSecret;
                  mret (Send 200 (SetupData secret (user_email user)
                          (security_authorize now (setupTokenPayload secret))))
                else mret (Send 200 SetupDone)
            end
        end)
       (λ error, mret (Send 401 Empty))).

Definition setup (now : Z) (req : Request) : World → Response * World :=
  handle
    (catch
       (session ← authenticatedUsers_from now req;
        match session with
        | None => throw "Need to login before setting up 2FA"
        | Some session =>
            match data session with
            | None => throw "Cannot read properties of null"
            | Some user =>
                let password := body_password req in
                let setupToken := body_setupToken req in
                let initialToken := body_initialToken req in
                hashed ← security_hash password;
                same ← security_constantTimeCompare (user_password user) hashed;
                if negb same then throw "Password doesnt match stored password"
                else if negb (String.eqb (user_totpSecret user) "") then
                  throw "User has 2fa already setup"
                else
                  let decoded := if security_verify now setupToken
                                 then security_decode now setupToken else None in
                  let secret := decoded ≫= pl_secret in
                  let type := decoded ≫= pl_type in
                  if negb (isType type "totp_setup_secret") then
                    throw "SetupToken is of wrong type"
                  else
                    valid ← authenticator_check_opt now initialToken secret;
                    if negb valid then
                      throw "Initial token doesnt match the secret from the setupToken"
                    else
                      userModel ← UserModel_findByPk (Some (user_id user));
                      match userModel, secret with
                      | Some userModel, Some secret =>
                          let userModel :=
                            {| user_id := user_id userModel;
                               user_email := user_email userModel;
                               user_password := user_password userModel;
                               user_totpSecret := secret;
                               user_role := user_role userModel |} in
                          UserModel_save userModel;;
                          authenticatedUsers_updateFrom req
                            (queryResultToJson (Some userModel));;
                          mret (Send 200 Empty)
                      | _, _ => throw "No such user found!"
                      end
            end
        end)
       (λ error, mret (Send 401 Empty))).

Definition disable (now : Z) (req : Request) : World → Response * World :=
  handle
    (catch
       (session ← authenticatedUsers_from now req;
        match session with
        | None => throw "Need to login before setting up 2FA"
        | Some session =>
            match data session with
            | None => throw "Cannot read properties of null"
            | Some user =>
                hashed ← security_hash (body_password req);
                if negb (String.eqb (user_password user) hashed) then
                  throw "Password doesnt match stored password"
                else
                  userModel ← UserModel_findByPk (Some (user_id user));
                  match userModel with
                  | Some userModel =>
                      let userModel :=
                        {| user_id := user_id userModel;
                           user_email := user_email userModel;
                           user_password := user_password userModel;
                           user_totpSecret := "";
                           user_role := user_role userModel |} in
                      UserModel_save userModel;;
                      authenticatedUsers_updateFrom req
                        (queryResultToJson (Some userModel));;
                      mret (Send 200 Empty)
                  | None => throw "No such user found!"
                  end
            end
        end)
       (λ error, mret (Send 401 Empty))).

End Routes.

(** ** The public-file route *)

Module PublicFiles.

Definition isSlash (c : ascii) : bool :=
  Ascii.eqb c "/" || Ascii.eqb c "\".

(** [str.includes(c)] for a one-character [c]. *)
Fixpoint includes (c : ascii) (str : string) : bool :=
  match str with
  | EmptyString => false
  | String d rest => Ascii.eqb d c || includes c rest
  end.

(** Modelled from the spec: [utils.endsWith] is not among the sources; it
    is taken as the suffix test its name and the route's error message
    describe. *)
Definition endsWith (str suffix : string) : bool :=
  let n := String.length str in
  let m := String.length suffix in
  (m <=? n)%nat && String.eqb (substring (n - m) m str) suffix.

Definition endsWithAllowlistedFileType (param : string) : bool :=
  endsWith param ".md" || endsWith param ".pdf".

(** [file.replace(/(\.\.[\/\\])|[\/\\]/g, '')]: scanning from the left,
    two dots followed by a slash are dropped together, any other slash is
    dropped alone, every other character is kept. *)
Fixpoint replaceDangerousFragments (file : string) : string :=
  match file with
  | EmptyString => EmptyString
  | String c rest =>
      match rest with
      | String d (String e rest') =>
          if Ascii.eqb c "." && Ascii.eqb d "." && isSlash e
          then replaceDangerousFragments rest'
          else if isSlash c then replaceDangerousFragments rest
          else String c (replaceDangerousFragments rest)
      | _ =>
          if isSlash c then replaceDangerousFragments rest
          else String c (replaceDangerousFragments rest)
      end
  end.

(** *** [node:path], POSIX flavour *)

Definition sep : string := "/".

(** The segments between the slashes of a path. *)
Fixpoint segments (path : string) (current : string) : list string :=
  match path with
  | EmptyString => [current]
  | String c rest =>
      if Ascii.eqb c "/" then current :: segments rest ""
      else segments rest (current +:+ String c EmptyString)
  end.

(** Normalisation of an absolute path, on the segments read so far (last
    one first): empty segments and [.] are skipped, [..] leaves the
    directory reached, and stays at the root when there is none. *)
Fixpoint normalizeSegments (todo : list string) (reached : list string) : list string :=
  match todo with
  | [] => rev reached
  | s :: todo' =>
      if String.eqb s "" || String.eqb s "." then normalizeSegments todo' reached
      else if String.eqb s ".." then normalizeSegments todo' (tl reached)
      else normalizeSegments todo' (s :: reached)
  end.

Fixpoint joinSegments (l : list string) : string :=
  match l with
  | [] => ""
  | s :: l' => "/" +:+ s +:+ joinSegments l'
  end.

Definition isAbsolute (path : string) : bool :=
  match path with
  | String c _ => Ascii.eqb c "/"
  | EmptyString => false
  end.

(** The arguments of [path.resolve], last one first: they are prepended
    one by one until one of them is absolute; the working directory comes
    last. *)
Fixpoint resolveFrom (cwd : string) (args : list string) (resolved : string) : string :=
  match args with
  | [] => cwd +:+ "/" +:+ resolved
  | p :: args' =>
      if String.eqb p "" then resolveFrom cwd args' resolved
      else if isAbsolute p then p +:+ "/" +:+ resolved
      else resolveFrom cwd args' (p +:+ "/" +:+ resolved)
  end.

(** [path.resolve(...paths)] in the working directory [cwd], an absolute
    path. *)
Definition path_resolve (cwd : string) (paths : list string) : string :=
  match normalizeSegments (segments (resolveFrom cwd (rev paths) "") "") [] with
  | [] => "/"
  | l => joinSegments l
  end.

(** Whether the last character of a path is a slash. *)
Fixpoint endsInSlash (path : string) : bool :=
  match path with
  | EmptyString => false
  | String c EmptyString => Ascii.eqb c "/"
  | String _ rest => endsInSlash rest
  end.

(** A segment of a normalised path: not empty and without slash. *)
Definition properSegment (s : string) : Prop :=
  s ≠ "" ∧ includes "/" s = false.

Section Route.
(** [process.cwd()] and [security.cutOffPoisonNullByte], which is not
    among the sources. *)
Variable cwd : string.
Variable cutOffPoisonNullByte : string → string.

(** [verify(file, res, next)].  The challenge checks only observe [file]
    and are left out. *)
Definition verify (file : string) : Response :=
  if negb (String.eqb file "")
     && (endsWithAllowlistedFileType file || String.eqb file "incident-support.kdbx")
  then
    let file := cutOffPoisonNullByte file in
    let sanitizedFile := replaceDangerousFragments file in
    let basePath := path_resolve cwd ["ftp/"] in
    let resolvedPath := path_resolve cwd [basePath; sanitizedFile] in
    if negb (String.prefix (basePath +:+ sep) resolvedPath) then
      Next 403 "File path traversal attempt detected!"
    else SendFile resolvedPath
  else Next 403 "Only .md and .pdf files are allowed!".

(** The handler [servePublicFiles()] returns, applied to [params.file]. *)
Definition servePublicFiles (file : string) : Response :=
  if negb (includes "/" file) && negb (includes "\" file) then verify file
  else Next 403 "File names cannot contain forward or backward slashes!".

End Route.

End PublicFiles.

(** ** Notions the statements use *)

Section Notions.
Context `{Primitives}.

(** The key of the failed-login tracker: submitted email and origin. *)
Definition lockoutKey (req : Request) : string :=
  default "" (body_email req) +:+ ":" +:+ ip req.

(** The spec's [isLocked]: at least [FAILED_ATTEMPTS_LIMIT] failures and
    less than [LOCK_TIME_MS] since the last one. *)
Definition isLocked (now : Z) (key : string) (failed : gmap string Attempt) : Prop :=
  ∃ a, failed !! key = Some a
       ∧ FAILED_ATTEMPTS_LIMIT ≤ count a
       ∧ now - lastAttempt a < LOCK_TIME_MS.

(** What a query finds in a state. *)
Definition found {A} (query : M (option A)) (w : World) : option A :=
  match fst (query w) with
  | Ok r => r
  | Throw _ => None
  end.

(** The credential record the submitted email and password match: what
    line 53 of [login.ts] finds. *)
Definition credentialOf (req : Request) (w : World) : option User :=
  found (UserModel_findOne (default "" (body_email req))
           (passwordDigest (default "" (body_password req)))) w.

Definition recordById (pk : positive) (w : World) : option User :=
  found (UserModel_findByPk (Some pk)) w.

(** The basket of an identity, if it has one. *)
Definition basketOf (UserId : positive) (w : World) : option Basket :=
  find (λ b, Pos.eqb (basket_UserId b) UserId) (BasketModel w).

(** The session a request resolves to at time [now]. *)
Definition sessionOf (now : Z) (req : Request) (w : World) : option ResponseWithUser :=
  found (authenticatedUsers_from now req) w.

(** The failures that still count for a key when an attempt that is not
    locked out begins: an entry at the limit has outlived its window and
    is dropped. *)
Definition failuresSoFar (key : string) (failed : gmap string Attempt) : Z :=
  match failed !! key with
  | Some a => if FAILED_ATTEMPTS_LIMIT <=? count a then 0 else count a
  | None => 0
  end.

(** The guard [login] starts with, as a boolean. *)
Definition lockedNow (now : Z) (key : string) (failed : gmap string Attempt) : bool :=
  match failed !! key with
  | Some a => (FAILED_ATTEMPTS_LIMIT <=? count a) && (now - lastAttempt a <? LOCK_TIME_MS)
  | None => false
  end.

(** The tracker once an attempt that is not locked out has passed the
    guard. *)
Definition pastGuard (key : string) (failed : gmap string Attempt) : gmap string Attempt :=
  match failed !! key with
  | Some a => if FAILED_ATTEMPTS_LIMIT <=? count a then delete key failed else failed
  | None => failed
  end.

(** The world an attempt that is not locked out leaves when the
    credential check has run: the guard passed and the password hashed. *)
Definition hashed (req : Request) (w : World) : World :=
  set_comparatorCalls (cons (HashPassword (default "" (body_password req))))
    (set_failedLoginAttempts (pastGuard (lockoutKey req)) w).

(** Every entry of the tracker counts between one failure and the limit. *)
Definition bounded (failed : gmap string Attempt) : Prop :=
  ∀ key a, failed !! key = Some a → 1 ≤ count a ≤ FAILED_ATTEMPTS_LIMIT.

Definition tooManyAttempts : Response :=
  Send 429 (Message "Too many failed login attempts. Please try again later.").

Definition invalidLogin : Response :=
  Send 401 (Message "Invalid email or password.").

(** The generic rejection of the second-factor routes: status 401 and an
    empty body. *)
Definition unauthenticated : Response := Send 401 Empty.

Definition isAuthentication (r : Response) : Prop :=
  ∃ status token b umail, r = Send status (Authentication token b umail).

Definition withSecret (u : User) (secret : string) : User :=
  {| user_id := user_id u; user_email := user_email u;
     user_password := user_password u; user_totpSecret := secret;
     user_role := user_role u |}.

(** What [setup] checks before it enrolls: a session, the password, no
    secret yet, a setup token of the right type, a first code valid for
    the token's secret - the five checks of the specification - and, last,
    that the record of the identity is still there. *)
Definition setupChecks (now : Z) (req : Request) (w : World)
    (user record : User) (secret : string) : Prop :=
  (∃ session, sessionOf now req w = Some session ∧ data session = Some user)
  ∧ (∃ password, body_password req = Some password
                 ∧ user_password user = digest password)
  ∧ user_totpSecret user = ""
  ∧ (security_verify now (body_setupToken req) = true
     ∧ security_decode now (body_setupToken req) ≫= pl_type = Some "totp_setup_secret"
     ∧ security_decode now (body_setupToken req) ≫= pl_secret = Some secret)
  ∧ (∃ code, body_initialToken req = Some code
             ∧ authenticator_check now code secret = true)
  ∧ recordById (user_id user) w = Some record.

(** The five checks alone. *)
Definition setupChecksOfSpec (now : Z) (req : Request) (w : World)
    (user : User) (secret : string) : Prop :=
  (∃ session, sessionOf now req w = Some session ∧ data session = Some user)
  ∧ (∃ password, body_password req = Some password
                 ∧ user_password user = digest password)
  ∧ user_totpSecret user = ""
  ∧ (security_verify now (body_setupToken req) = true
     ∧ security_decode now (body_setupToken req) ≫= pl_type = Some "totp_setup_secret"
     ∧ security_decode now (body_setupToken req) ≫= pl_secret = Some secret)
  ∧ (∃ code, body_initialToken req = Some code
             ∧ authenticator_check now code secret = true).

(** Requests that arrive together: the handler yields at its first
    [await], so the guards of all of them run before the [try] block of
    any. *)
Definition guardsOf (requests : list (Z * Request)) (w : World)
    : list (option Response) * World :=
  fold_left
    (λ (acc : list (option Response) * World) (r : Z * Request),
       match loginGuard (fst r) (snd r) (snd acc) with
       | (Ok answer, w') => (fst acc ++ [answer], w')
       | (Throw _, w') => (fst acc ++ [None], w')
       end)
    requests ([], w).

Definition attemptsOf (requests : list (Z * Request)) (w : World)
    : list Response * World :=
  fold_left
    (λ (acc : list Response * World) (r : Z * Request),
       match handle (loginAttempt (fst r) (snd r)) (snd acc) with
       | (answer, w') => (fst acc ++ [answer], w')
       end)
    requests ([], w).

(** The tracker states reached when every request is handled to its end
    before the next one begins: the tracker starts empty, each handler
    runs as a whole, and nothing else writes the tracker (it is local to
    [login()]).  This is the program without requests in flight at the
    same time; [reachable] below is the program. *)
Inductive handledInTurn : World → Prop :=
| turn_start w : failedLoginAttempts w = ∅ → handledInTurn w
| turn_login now req w : handledInTurn w → handledInTurn (snd (login now req w))
| turn_verify now req w : handledInTurn w → handledInTurn (snd (verify now req w))
| turn_status now req w : handledInTurn w → handledInTurn (snd (status now req w))
| turn_setup now req w : handledInTurn w → handledInTurn (snd (setup now req w))
| turn_disable now req w : handledInTurn w → handledInTurn (snd (disable now req w))
| turn_elsewhere w w' :
    handledInTurn w → failedLoginAttempts w' = failedLoginAttempts w → handledInTurn w'.

(** The states the program reaches.  The handler of [login()] is
    [async]: a request runs lines 35-46 when it arrives and, unless it
    is answered 429 there, stops at the [await] of line 51; what follows
    runs later, and other requests run in between.  [pending] lists the
    requests that have passed the guard and have not yet run their [try]
    block, each with the time it read at line 37.  The tracker is read
    and written in lines 38-46 and 63-86 only, and no [await] lies inside
    either range, so the [try] block is one step as far as the tracker
    goes; what other code does to the rest of the state between the
    [await]s of lines 51 and 53 is a step of [reach_elsewhere]. *)
Inductive reachable : list (Z * Request) → World → Prop :=
| reach_start w : failedLoginAttempts w = ∅ → reachable [] w
| reach_guard_pass now req pending w w' :
    reachable pending w →
    loginGuard now req w = (Ok None, w') →
    reachable (pending ++ [(now, req)]) w'
| reach_guard_reject now req response pending w w' :
    reachable pending w →
    loginGuard now req w = (Ok (Some response), w') →
    reachable pending w'
| reach_attempt now req before after w :
    reachable (before ++ (now, req) :: after) w →
    reachable (before ++ after) (snd (handle (loginAttempt now req) w))
| reach_elsewhere pending w w' :
    reachable pending w →
    failedLoginAttempts w' = failedLoginAttempts w →
    reachable pending w'.

End Notions.

(** ** A concrete instance, for running the handlers *)

Module Sample.

Fixpoint digits (n : nat) : string :=
  match n with
  | O => "A"
  | S m => "B" +:+ digits m
  end.

#[export] Instance primitives : Primitives := {|
  passwordDigest := λ s, "md5:" +:+ s;
  digest := λ s, "md5:" +:+ s;
  signature := λ p iat exp,
    "sig(" +:+ default "" (pl_type p) +:+ "," +:+ default "" (pl_secret p) +:+ ")";
  expiresIn := 6 * 60 * 60 * 1000;
  expiresIn_pos := eq_refl;
  secretOf := digits;
  secretOf_nonempty := ltac:(intros []; discriminate);
  hotp := λ secret counter, secret +:+ "#" +:+ digits (Z.to_nat (counter mod 7))
|}.

Definition jim : User :=
  mkUser 2 "jim@juice-sh.op" "md5:ncc-1701" "" "customer".

Definition wurstbrot : User :=
  mkUser 10 "wurstbrot@juice-sh.op" "md5:EinBelegtesBrot" "IFTXE3SPOEYVURT2" "admin".

Definition emptyWorld : World :=
  mkWorld [] [] ∅ ∅ 0 [].

Definition shop : World :=
  mkWorld [jim; wurstbrot] [mkBasket 1 7] ∅ ∅ 0 [].

Definition credentials (email password : string) : Request :=
  mkRequest (Some email) (Some password) None None None None "10.0.0.1" None.

Definition secondFactor (tmpToken : Token) (code : string) : Request :=
  mkRequest None None (Some tmpToken) (Some code) None None "10.0.0.1" None.

Definition withToken (t : Token) : Request :=
  mkRequest None None None None None None "10.0.0.1" (Some t).

Definition enrollment (t : Token) (password : string) (setupToken : Token)
    (code : string) : Request :=
  mkRequest None (Some password) None None (Some setupToken) (Some code)
            "10.0.0.1" (Some t).

(** Five wrong passwords for [wurstbrot], one every second. *)
Definition afterFiveFailures : World :=
  fold_left (λ w t, snd (login t (credentials "wurstbrot@juice-sh.op" "guess") w))
            [1000; 2000; 3000; 4000; 5000] shop.

(** The token [jim] gets at time 1000. *)
Definition jimToken : Token :=
  security_authorize 1000 (payloadOfUser (queryResultToJson (Some jim))).

Definition jimLoggedIn : World :=
  snd (login 1000 (credentials "jim@juice-sh.op" "ncc-1701") shop).

(** [jim]'s session after his record was erased. *)
Definition jimErased : World :=
  set_UserModel (λ _, [wurstbrot]) jimLoggedIn.

Definition jimSetupToken : Token :=
  security_authorize 2000 (setupTokenPayload (digits 0)).

Definition wurstbrotKey : string := "wurstbrot@juice-sh.op:10.0.0.1".

(** [wurstbrot]'s password accepted at time 500: the pending token. *)
Definition wurstbrotPending : Token :=
  security_authorize 500 (tmpTokenPayload 10).

(** One wrong password for [wurstbrot] at time 1000. *)
Definition afterOneFailure : World :=
  snd (login 1000 (credentials "wurstbrot@juice-sh.op" "guess") shop).

(** Six wrong passwords for [wurstbrot] within six milliseconds. *)
Definition sixGuesses : list (Z * Request) :=
  map (λ t, (t, credentials "wurstbrot@juice-sh.op" "guess"))
      [1000; 1001; 1002; 1003; 1004; 1005].

Definition posixCwd : string := "/juice-shop".

(** [security.cutOffPoisonNullByte], as its name describes it: the string
    up to the first [%00]. *)
Fixpoint cutOffPoisonNullByte (str : string) : string :=
  match str with
  | EmptyString => EmptyString
  | String c rest =>
      if String.prefix "%00" str then EmptyString
      else String c (cutOffPoisonNullByte rest)
  end.

End Sample.

(** ** [routes/vulnCodeFixes.ts] *)

Module CodeFixes.


(** The JavaScript values the routes compute with, and the built-in
    operations they apply to them.  [correct] is a number, an IEEE
    double; [selectedFix] is what the request body holds, and the [id]
    of an info entry what the YAML file holds.  The model takes the
    values and these operations as they are in JavaScript and fixes only
    what the routes do with them. *)
Class Values := {
  value : Type;
  (** the literal [-1] *)
  minusOne : value;
  (** [parseInt(str, 10)] *)
  parseInt : string → value;
  (** the value of [x] after [x--] *)
  decrement : value → value;
  (** [x + 1] *)
  plusOne : value → value;
  (** [x === y] *)
  strictEquals : value → value → bool
}.

(** Calls that leave the route. *)
Inductive Event :=
| SolveFixIt (key : string)
| StoreFixItVerdict (key : string) (verdict : bool).

(** What the handlers answer: 404 with the error, 200 with the fixes,
    200 with the verdict, or an exception that leaves the handler. *)
Inductive Reply :=
| NoFixes
| Fixes (fixes : list string)
| Verdict (verdict : bool) (explanation : option string)
| Raised (error : string).

(** *** Strings *)

Definition startsWith (str searchString : string) : bool :=
  String.prefix searchString str.

(** [str.split(separator)] for a one-character separator. *)
Fixpoint split (separator : ascii) (str : string) (current : string) : list string :=
  match str with
  | EmptyString => [current]
  | String c rest =>
      if Ascii.eqb c separator then current :: split separator rest ""
      else split separator rest (current +:+ String c EmptyString)
  end.

(** *** The cache, a JavaScript object *)

(** The properties every object inherits from [Object.prototype]; all of
    them are truthy and none is a [CodeFix]. *)
Definition objectPrototypeKeys : list string :=
  ["constructor"; "__defineGetter__"; "__defineSetter__"; "hasOwnProperty";
   "__lookupGetter__"; "__lookupSetter__"; "isPrototypeOf";
   "propertyIsEnumerable"; "toString"; "valueOf"; "__proto__"; "toLocaleString"].

Definition inherited (key : string) : bool :=
  existsb (String.eqb key) objectPrototypeKeys.

Section Routes.
Context `{Values}.

Record CodeFix := mkCodeFix {
  fixes : list string;
  correct : value
}.

(** An entry of the [fixes] list of a [.info.yml] file. *)
Record FixInfo := mkFixInfo {
  info_id : value;
  explanation : option string
}.

(** What the routes see and keep: the listing of [FixesDir] with the
    content of each file, in the order [readdirSync] gives; the parsed
    info files, by path; the cache [CodeFixes]; the calls made. *)
Record Store := mkStore {
  directory : list (string * string);
  infoFiles : string → option (list FixInfo);
  cache : gmap string CodeFix;
  journal : list Event
}.

Definition set_cache (f : gmap string CodeFix → gmap string CodeFix) (st : Store) : Store :=
  mkStore (directory st) (infoFiles st) (f (cache st)) (journal st).
Definition set_directory (d : list (string * string)) (st : Store) : Store :=
  mkStore d (infoFiles st) (cache st) (journal st).

(** What [readFixes] returns: a [CodeFix], or the inherited property
    that [CodeFixes[key]] is for a key of [Object.prototype]. *)
Inductive Read :=
| Read_fix (codeFix : CodeFix)
| Read_inherited.

(** *** [readFixes] *)

(** The body of the loop, lines 28-37, for one file of the listing
    ([fix] of the source is [fixText]). *)
Definition readFile (key : string) (acc : list string * value)
    (file : string * string) : list string * value :=
  if startsWith (fst file) (key +:+ "_") then
    let fixText := snd file in
    let metadata := split "_" (fst file) "" in
    let number := nth 1 metadata "" in
    let fixes := fst acc ++ [fixText] in
    if (length metadata =? 3)%nat
    then (fixes, decrement (parseInt number))
    else (fixes, snd acc)
  else acc.

(** Lines 24-39: the listing is read from first to last. *)
Definition scanFixes (key : string) (files : list (string * string)) : CodeFix :=
  let result := fold_left (readFile key) files ([], minusOne) in
  {| fixes := fst result; correct := snd result |}.

Definition readFixes (key : string) (st : Store) : Read * Store :=
  match cache st !! key with
  | Some cached => (Read_fix cached, st)
  | None =>
      if inherited key then (Read_inherited, st)
      else
        let codeFix := scanFixes key (directory st) in
        (Read_fix codeFix, set_cache (insert key codeFix) st)
  end.

(** *** [serveCodeFixes] *)

Definition serveCodeFixes (key : string) (st : Store) : Reply * Store :=
  match readFixes key st with
  | (Read_fix fixData, st') =>
      if (length (fixes fixData) =? 0)%nat then (NoFixes, st')
      else (Fixes (fixes fixData), st')
  | (Read_inherited, st') =>
      (Raised "Cannot read properties of undefined (reading 'length')", st')
  end.

(** *** [checkCorrectFix] *)

(** [res.__], the translation of a message. *)
Variable translate : string → string.



End Routes.

(** *** Notions the statements use *)

(** The files of the listing that belong to a key. *)
Definition filesOf (key : string) (files : list (string * string)) : list (string * string) :=
  filter (λ file, startsWith (fst file) (key +:+ "_") = true) files.

(** A file name of exactly three parts: the mark of the correct fix. *)
Definition marked (file : string * string) : Prop :=
  length (split "_" (fst file) "") = 3%nat.

End CodeFixes.

(** ** Further notions *)

Section FurtherNotions.
Context `{Primitives}.

(** The request carries a pending token for the identity [userId]: the
    token verifies, has the needs-second-factor type and names the
    identity. *)
Definition pendingFor (now : Z) (req : Request) (userId : positive) : Prop :=
  security_verify now (body_tmpToken req) = true
  ∧ security_decode now (body_tmpToken req) ≫= pl_type
    = Some "password_valid_needs_second_factor_token"
  ∧ security_decode now (body_tmpToken req) ≫= pl_userId = Some userId.

(** Logins of one request at the given times, one after the other. *)
Definition loginsAt (times : list Z) (req : Request) (w : World) : World :=
  fold_left (λ w t, snd (login t req w)) times w.

(** Logins of several requests, each at its time, one after the other. *)
Definition loginsOf (requests : list (Z * Request)) (w : World) : World :=
  fold_left (λ w r, snd (login (fst r) (snd r) w)) requests w.

(** What [disable] checks: a session, the password, and that the record
    of the identity is found. *)
Definition disableChecks (now : Z) (req : Request) (w : World)
    (user record : User) : Prop :=
  (∃ session, sessionOf now req w = Some session ∧ data session = Some user)
  ∧ (∃ password, body_password req = Some password
                 ∧ user_password user = digest password)
  ∧ recordById (user_id user) w = Some record.

End FurtherNotions.

(** A segment that normalisation keeps: not empty, without slash, and
    neither [.] nor [..]. *)
Definition keptSegment (s : string) : Prop :=
  PublicFiles.properSegment s ∧ s ≠ "." ∧ s ≠ "..".

(** Further sample data. *)
Module MoreSamples.
Import Sample.

(** [jim] logs in a second time, at time 1500. *)
Definition jimSecondToken : Token :=
  security_authorize 1500 (payloadOfUser (queryResultToJson (Some jim))).

Definition jimTwice : World :=
  snd (login 1500 (credentials "jim@juice-sh.op" "ncc-1701") jimLoggedIn).

Definition jimSecondSetupToken : Token :=
  security_authorize 2500 (setupTokenPayload (digits 1)).

(** [jim] enrolls through his first session at time 3000. *)
Definition jimEnrolled : World :=
  snd (setup 3000 (enrollment jimToken "ncc-1701" jimSetupToken "A#A") jimTwice).

Definition passwordOnly (t : Token) (password : string) : Request :=
  mkRequest None (Some password) None None None None "10.0.0.1" (Some t).

(** A listing of the code fixes: three fixes of one challenge, the
    second marked correct, its info file, and two fixes of another
    challenge, none marked. *)
Definition fixListing : list (string * string) :=
  [("loginAdminChallenge.info.yml", "fixes:");
   ("loginAdminChallenge_1.ts", "first");
   ("loginAdminChallenge_2_correct.ts", "second");
   ("loginAdminChallenge_3.ts", "third");
   ("xssBonusChallenge_1.ts", "one");
   ("xssBonusChallenge_2.ts", "two")].

(** Values for the samples: integers, with [None] for [NaN].  [decimal]
    reads a numeral of ASCII digits, which is what [parseInt] reads from
    the file names of [fixListing]; the numbers of the samples are small,
    so that the arithmetic of JavaScript is that of the integers there. *)
Fixpoint decimal (str : string) (read : option Z) : option Z :=
  match str with
  | String c rest =>
      let n := Z.of_nat (nat_of_ascii c) in
      if (48 <=? n) && (n <=? 57)
      then decimal rest (Some (10 * default 0 read + (n - 48)))
      else read
  | EmptyString => read
  end.

#[export] Instance sampleValues : CodeFixes.Values := {|
  CodeFixes.value := option Z;
  CodeFixes.minusOne := Some (-1);
  CodeFixes.parseInt := λ str, decimal str None;
  CodeFixes.decrement := fmap Z.pred;
  CodeFixes.plusOne := fmap Z.succ;
  CodeFixes.strictEquals := λ x y,
    match x, y with
    | Some a, Some b => a =? b
    | _, _ => false
    end
|}.

(** The number [n] as a value of the samples. *)
Definition number (n : Z) : CodeFixes.value := Some n.

Definition fixInfos (path : string) : option (list CodeFixes.FixInfo) :=
  if String.eqb path "data/static/codefixes/loginAdminChallenge.info.yml"
  then Some [CodeFixes.mkFixInfo (number 1) (Some "Not this one.");
             CodeFixes.mkFixInfo (number 2) (Some "Well done.");
             CodeFixes.mkFixInfo (number 3) None]
  else None.

Definition fixStore : CodeFixes.Store :=
  CodeFixes.mkStore fixListing fixInfos ∅ [].

(** [wurstbrot]'s right password, and her code at the time steps 0. *)
Definition wurstbrotLogin : Request :=
  credentials "wurstbrot@juice-sh.op" "EinBelegtesBrot".

Definition wurstbrotCompletion : Request :=
  secondFactor (security_authorize 1000 (tmpTokenPayload 10)) "IFTXE3SPOEYVURT2#A".

Definition jimEnrollment : Request :=
  enrollment jimToken "ncc-1701" jimSetupToken "A#A".

Definition jimSecondEnrollment : Request :=
  enrollment jimSecondToken "ncc-1701" jimSecondSetupToken "BA#A".

(** One caller behind an address mapped from IPv4, and another whose
    email ends like the beginning of that address. *)
Definition mappedCaller : Request :=
  mkRequest (Some "a@b.c") (Some "x") None None None None "::ffff:1.2.3.4" None.

Definition plainCaller : Request :=
  mkRequest (Some "a@b.c:::ffff") (Some "x") None None None None "1.2.3.4" None.

End MoreSamples.

(** ** Properties *)

Section Properties.
Context `{Primitives}.

Ltac run :=
  unfold found, handle, catch, mbind, M_bind, mret, M_ret, gets, modify, throw,
    security_hashPassword, security_hash, security_constantTimeCompare,
    UserModel_findOne, UserModel_findByPk, UserModel_save,
    authenticatedUsers_put, authenticatedUsers_from, authenticatedUsers_updateFrom,
    authenticator_check_opt, authenticator_generateSecret,
    queryResultToJson, set_UserModel, set_BasketModel, set_authenticatedUsers,
    set_failedLoginAttempts, set_entropy, set_comparatorCalls in *; simpl in *.

Lemma lockedNow_true now key failed :
  lockedNow now key failed = true ↔ isLocked now key failed.
Proof.
  unfold lockedNow, isLocked. split.
  - destruct (failed !! key) as [a|]; [|discriminate].
    intros [? ?]%andb_true_iff. exists a. split; [reflexivity|]. lia.
  - intros (a & -> & ? & ?). apply andb_true_iff. lia.
Qed.

Lemma lockedNow_false now key failed :
  lockedNow now key failed = false ↔ ¬ isLocked now key failed.
Proof.
  rewrite <- lockedNow_true. destruct (lockedNow now key failed); split; congruence.
Qed.

Lemma login_locked now req w :
  lockedNow now (lockoutKey req) (failedLoginAttempts w) = true →
  login now req w = (tooManyAttempts, w).
Proof.
  unfold lockedNow, login, loginGuard, loginAttempt, lockoutKey. run.
  destruct (failedLoginAttempts w !! _) as [a|]; [|discriminate].
  intros [-> ->]%andb_true_iff. reflexivity.
Qed.

Lemma login_mismatch now req w :
  lockedNow now (lockoutKey req) (failedLoginAttempts w) = false →
  credentialOf req w = None →
  login now req w
  = (invalidLogin,
     set_failedLoginAttempts
       (insert (lockoutKey req)
          {| count := failuresSoFar (lockoutKey req) (failedLoginAttempts w) + 1;
             lastAttempt := now |})
       (hashed req w)).
Proof.
  unfold lockedNow, login, loginGuard, loginAttempt, lockoutKey, credentialOf, hashed, pastGuard, failuresSoFar.
  destruct w as [us bs au failed en calls]. run. intros Hl Hc.
  destruct (failed !! _) as [a|] eqn:E.
  - destruct (FAILED_ATTEMPTS_LIMIT <=? count a) eqn:El.
    + simpl in Hl. rewrite Hl. simpl. rewrite Hc. simpl.
      rewrite lookup_delete_eq. reflexivity.
    + simpl. rewrite Hc. simpl. rewrite E. reflexivity.
  - simpl. rewrite Hc. simpl. rewrite E. reflexivity.
Qed.

Lemma login_enrolled now req w record :
  lockedNow now (lockoutKey req) (failedLoginAttempts w) = false →
  credentialOf req w = Some record →
  user_totpSecret record ≠ "" →
  login now req w
  = (Send 401 (TotpTokenRequired
                 (security_authorize now (tmpTokenPayload (user_id record)))),
     set_failedLoginAttempts (delete (lockoutKey req)) (hashed req w)).
Proof.
  unfold lockedNow, login, loginGuard, loginAttempt, lockoutKey, credentialOf, hashed, pastGuard.
  destruct w as [us bs au failed en calls]. run. intros Hl Hc Hs.
  apply String.eqb_neq in Hs.
  destruct (failed !! _) as [a|] eqn:E.
  - destruct (FAILED_ATTEMPTS_LIMIT <=? count a) eqn:El.
    + simpl in Hl. rewrite Hl. simpl. rewrite Hc. simpl. rewrite Hs. reflexivity.
    + simpl. rewrite Hc. simpl. rewrite Hs. reflexivity.
  - simpl. rewrite Hc. simpl. rewrite Hs. reflexivity.
Qed.

Lemma login_plain now req w record :
  lockedNow now (lockoutKey req) (failedLoginAttempts w) = false →
  credentialOf req w = Some record →
  user_totpSecret record = "" →
  login now req w
  = let w1 := set_failedLoginAttempts (delete (lockoutKey req)) (hashed req w) in
    let token := security_authorize now (payloadOfUser (queryResultToJson (Some record))) in
    match BasketModel_findOrCreate (user_id record) w1 with
    | (Ok basket, w2) =>
        (Send 200 (Authentication token (basket_id basket) (user_email record)),
         set_authenticatedUsers
           (insert token {| data := Some record; bid := Some (basket_id basket) |}) w2)
    | (Throw e, w2) => (Next 200 e, w2)
    end.
Proof.
  unfold lockedNow, login, loginGuard, loginAttempt, lockoutKey, credentialOf, hashed, pastGuard, afterLogin.
  destruct w as [us bs au failed en calls]. run. intros Hl Hc Hs.
  apply String.eqb_eq in Hs.
  destruct (failed !! _) as [a|] eqn:E.
  - destruct (FAILED_ATTEMPTS_LIMIT <=? count a) eqn:El.
    + simpl in Hl. rewrite Hl. simpl. rewrite Hc. simpl. rewrite Hs. simpl.
      destruct (BasketModel_findOrCreate _ _) as [[b|e] w2]; reflexivity.
    + simpl. rewrite Hc. simpl. rewrite Hs. simpl.
      destruct (BasketModel_findOrCreate _ _) as [[b|e] w2]; reflexivity.
  - simpl. rewrite Hc. simpl. rewrite Hs. simpl.
    destruct (BasketModel_findOrCreate _ _) as [[b|e] w2]; reflexivity.
Qed.

(** *** The token codec and the registry *)

Lemma verify_authorize now now' payload :
  now' < now + expiresIn →
  security_verify now' (Some (security_authorize now payload)) = true.
Proof.
  intros Hlt. unfold security_verify, security_authorize. simpl.
  rewrite String.eqb_refl. simpl. apply Z.ltb_lt. exact Hlt.
Qed.

Lemma verify_authorize_now now payload :
  security_verify now (Some (security_authorize now payload)) = true.
Proof. apply verify_authorize. pose proof expiresIn_pos. lia. Qed.

Lemma decode_authorize_now now payload :
  security_decode now (Some (security_authorize now payload)) = Some payload.
Proof.
  unfold security_decode. rewrite verify_authorize_now. reflexivity.
Qed.

Lemma from_sessionOf now req w :
  authenticatedUsers_from now req w = (Ok (sessionOf now req w), w).
Proof. reflexivity. Qed.

Lemma findOrCreate_spec UserId w :
  ∃ basket,
    basket_UserId basket = UserId
    ∧ (basketOf UserId w = Some basket
         ∧ BasketModel_findOrCreate UserId w = (Ok basket, w)
       ∨ basketOf UserId w = None
         ∧ BasketModel_findOrCreate UserId w
           = (Ok basket, set_BasketModel (λ l, l ++ [basket]) w)).
Proof.
  unfold BasketModel_findOrCreate, basketOf.
  destruct (find _ (BasketModel w)) as [b|] eqn:E.
  - exists b. split; [|left; split; reflexivity].
    apply find_some in E as [_ E]. apply Pos.eqb_eq in E. exact E.
  - eexists. split; [|right; split; reflexivity]. reflexivity.
Qed.

Lemma basketOf_created UserId w basket :
  basketOf UserId w = None →
  basket_UserId basket = UserId →
  basketOf UserId (set_BasketModel (λ l, l ++ [basket]) w) = Some basket.
Proof.
  unfold basketOf, set_BasketModel. simpl. intros Hn Hu.
  induction (BasketModel w) as [|b l IH]; simpl in *.
  - rewrite Hu, Pos.eqb_refl. reflexivity.
  - destruct (Pos.eqb (basket_UserId b) UserId); [discriminate | auto].
Qed.

Lemma credentialOf_email req w record :
  credentialOf req w = Some record →
  user_email record = default "" (body_email req)
  ∧ user_password record = passwordDigest (default "" (body_password req))
  ∧ In record (UserModel w).
Proof.
  unfold credentialOf. intros [Hin Hb]%find_some.
  apply andb_true_iff in Hb as [He Hp].
  apply String.eqb_eq in He, Hp. auto.
Qed.

Lemma login_plain_result now req w record :
  lockedNow now (lockoutKey req) (failedLoginAttempts w) = false →
  credentialOf req w = Some record →
  user_totpSecret record = "" →
  ∃ basket w2,
    login now req w
    = (Send 200 (Authentication
                   (security_authorize now (payloadOfUser (queryResultToJson (Some record))))
                   (basket_id basket) (user_email record)),
       set_authenticatedUsers
         (insert (security_authorize now (payloadOfUser (queryResultToJson (Some record))))
                 {| data := Some record; bid := Some (basket_id basket) |}) w2)
    ∧ basket_UserId basket = user_id record
    ∧ basketOf (user_id record) w2 = Some basket
    ∧ (basketOf (user_id record) w = Some basket ∧ BasketModel w2 = BasketModel w
       ∨ basketOf (user_id record) w = None ∧ BasketModel w2 = BasketModel w ++ [basket])
    ∧ failedLoginAttempts w2
      = delete (lockoutKey req) (pastGuard (lockoutKey req) (failedLoginAttempts w))
    ∧ authenticatedUsers w2 = authenticatedUsers w
    ∧ UserModel w2 = UserModel w.
Proof.
  intros Hl Hc Hs.
  rewrite (login_plain _ _ _ _ Hl Hc Hs). cbv zeta.
  set (w1 := set_failedLoginAttempts _ _).
  destruct (findOrCreate_spec (user_id record) w1) as (basket & Hu & Hb).
  assert (Hbk : ∀ w2, BasketModel w2 = BasketModel w →
                       basketOf (user_id record) w2 = basketOf (user_id record) w).
  { intros w2 E. unfold basketOf. rewrite E. reflexivity. }
  exists basket.
  destruct Hb as [[Hfound ->] | [Hnone ->]].
  - exists w1. split_and!; try reflexivity; try assumption.
    left. split; [|reflexivity]. rewrite <- Hfound. symmetry. apply Hbk. reflexivity.
  - exists (set_BasketModel (λ l, l ++ [basket]) w1).
    split_and!; try reflexivity; try assumption.
    + apply (basketOf_created _ w1); assumption.
    + right. split; [|reflexivity]. rewrite <- Hnone. symmetry. apply Hbk. reflexivity.
Qed.

(** *** Login without second factor *)

(** C6.  A login with the email and password of a record that has no
    TOTP secret, under a key that is not locked, deletes the entry of the
    key, finds or creates the basket of the identity, signs a session
    token, registers it with the snapshot of the identity and sends 200
    with token, basket id and email; looking the token up in the registry
    before it expires gives that snapshot back. *)
Theorem login_opens_session now req w record :
  ¬ isLocked now (lockoutKey req) (failedLoginAttempts w) →
  credentialOf req w = Some record →
  user_totpSecret record = "" →
  ∃ basket,
    let token := security_authorize now (payloadOfUser (queryResultToJson (Some record))) in
    let snapshot := {| data := Some record; bid := Some (basket_id basket) |} in
    let w' := snd (login now req w) in
    fst (login now req w)
      = Send 200 (Authentication token (basket_id basket) (user_email record))
    ∧ user_email record = default "" (body_email req)
    ∧ failedLoginAttempts w' !! lockoutKey req = None
    ∧ basket_UserId basket = user_id record
    ∧ basketOf (user_id record) w' = Some basket
    ∧ (basketOf (user_id record) w = Some basket ∧ BasketModel w' = BasketModel w
       ∨ basketOf (user_id record) w = None ∧ BasketModel w' = BasketModel w ++ [basket])
    ∧ security_verify now (Some token) = true
    ∧ authenticatedUsers w' = <[token := snapshot]> (authenticatedUsers w)
    ∧ ∀ now' req',
        bearer req' = Some token → now' < now + expiresIn →
        fst (authenticatedUsers_from now' req' w') = Ok (Some snapshot).
Proof.
  intros Hl%lockedNow_false Hc Hs.
  destruct (login_plain_result _ _ _ _ Hl Hc Hs)
    as (basket & w2 & -> & Hu & Hb2 & Hb & Hf & Hau & _).
  exists basket. cbn [fst snd]. split_and!.
  - reflexivity.
  - apply credentialOf_email in Hc. tauto.
  - unfold set_authenticatedUsers; simpl. rewrite Hf. apply lookup_delete_eq.
  - exact Hu.
  - exact Hb2.
  - exact Hb.
  - apply verify_authorize_now.
  - unfold set_authenticatedUsers; simpl. rewrite Hau. reflexivity.
  - intros now' req' Hbear Hexp%Z.ltb_lt.
    unfold authenticatedUsers_from, gets, set_authenticatedUsers. simpl.
    rewrite Hbear. simpl. rewrite Hexp. f_equal. apply lookup_insert_eq.
Qed.

(** *** Login of an enrolled identity *)

(** C1, as the code has it.  A login with the email and password of a
    record whose TOTP secret is not empty never answers with a session
    token and never touches the registry.  Under a locked key it is
    answered 429; otherwise it is answered 401 with a pending token that
    verifies, whose type is the needs-second-factor type and whose
    [userId] is the id of the record. *)
Theorem login_enrolled_pending now req w record :
  credentialOf req w = Some record →
  user_totpSecret record ≠ "" →
  ¬ isAuthentication (fst (login now req w))
  ∧ authenticatedUsers (snd (login now req w)) = authenticatedUsers w
  ∧ (isLocked now (lockoutKey req) (failedLoginAttempts w) →
     fst (login now req w) = tooManyAttempts)
  ∧ (¬ isLocked now (lockoutKey req) (failedLoginAttempts w) →
     ∃ tmpToken,
       fst (login now req w) = Send 401 (TotpTokenRequired tmpToken)
       ∧ security_verify now (Some tmpToken) = true
       ∧ security_decode now (Some tmpToken) ≫= pl_type
         = Some "password_valid_needs_second_factor_token"
       ∧ security_decode now (Some tmpToken) ≫= pl_userId = Some (user_id record)).
Proof.
  intros Hc Hs.
  destruct (lockedNow now (lockoutKey req) (failedLoginAttempts w)) eqn:Hl.
  - rewrite (login_locked _ _ _ Hl). apply lockedNow_true in Hl. split_and!.
    + intros (st & t & b & m & E). discriminate.
    + reflexivity.
    + reflexivity.
    + tauto.
  - rewrite (login_enrolled _ _ _ _ Hl Hc Hs). apply lockedNow_false in Hl. split_and!.
    + intros (st & t & b & m & E). discriminate.
    + reflexivity.
    + tauto.
    + intros _. eexists. split; [reflexivity|].
      rewrite verify_authorize_now, decode_authorize_now. auto.
Qed.

(** *** The lockout *)

Lemma login_window_elapsed now req w a :
  failedLoginAttempts w !! lockoutKey req = Some a →
  FAILED_ATTEMPTS_LIMIT ≤ count a →
  LOCK_TIME_MS ≤ now - lastAttempt a →
  login now req w
  = login now req (set_failedLoginAttempts (delete (lockoutKey req)) w).
Proof.
  intros E Hc Ht. unfold login, loginGuard, loginAttempt, lockoutKey in *. run.
  rewrite E, lookup_delete_eq.
  apply Z.leb_le in Hc. rewrite Hc.
  apply Z.ltb_ge in Ht. rewrite Ht. reflexivity.
Qed.

Lemma login_answers now req w :
  lockedNow now (lockoutKey req) (failedLoginAttempts w) = false →
  ∃ status body, fst (login now req w) = Send status body ∧ status ≠ 429.
Proof.
  intros Hl. destruct (credentialOf req w) as [record|] eqn:Hc.
  - destruct (String.eqb_spec (user_totpSecret record) "") as [Hs|Hs].
    + destruct (login_plain_result _ _ _ _ Hl Hc Hs) as (b & w2 & -> & _).
      eexists _, _. split; [reflexivity | discriminate].
    + rewrite (login_enrolled _ _ _ _ Hl Hc Hs).
      eexists _, _. split; [reflexivity | discriminate].
  - rewrite (login_mismatch _ _ _ Hl Hc).
    eexists _, _. split; [reflexivity | discriminate].
Qed.

(** C3.  A login is answered with status 429 exactly when the entry of
    its key counts at least 5 failures and less than 15 minutes have
    passed since the last one.  When the entry counts at least 5 and the
    15 minutes have passed, the entry is deleted and the attempt goes on
    as if there had been none: with the right credentials it succeeds
    and leaves no entry, with wrong ones it is the first failure of a
    fresh entry. *)
Theorem login_lockout now req w :
  ((∃ body, fst (login now req w) = Send 429 body)
   ↔ isLocked now (lockoutKey req) (failedLoginAttempts w))
  ∧ (isLocked now (lockoutKey req) (failedLoginAttempts w) →
     login now req w = (tooManyAttempts, w))
  ∧ ∀ a,
      failedLoginAttempts w !! lockoutKey req = Some a →
      FAILED_ATTEMPTS_LIMIT ≤ count a →
      LOCK_TIME_MS ≤ now - lastAttempt a →
      login now req w
        = login now req (set_failedLoginAttempts (delete (lockoutKey req)) w)
      ∧ (∀ record,
           credentialOf req w = Some record →
           failedLoginAttempts (snd (login now req w)) !! lockoutKey req = None
           ∧ (user_totpSecret record = "" →
              ∃ token b, fst (login now req w)
                         = Send 200 (Authentication token b (user_email record)))
           ∧ (user_totpSecret record ≠ "" →
              ∃ tmpToken, fst (login now req w) = Send 401 (TotpTokenRequired tmpToken)))
      ∧ (credentialOf req w = None →
         fst (login now req w) = invalidLogin
         ∧ failedLoginAttempts (snd (login now req w)) !! lockoutKey req
           = Some {| count := 1; lastAttempt := now |}).
Proof.
  split_and!.
  - split.
    + intros [body E].
      destruct (lockedNow now (lockoutKey req) (failedLoginAttempts w)) eqn:Hl.
      * apply lockedNow_true. exact Hl.
      * destruct (login_answers _ _ _ Hl) as (st & b & E' & Hst).
        rewrite E' in E. congruence.
    + intros Hl%lockedNow_true. rewrite (login_locked _ _ _ Hl). eexists. reflexivity.
  - intros Hl%lockedNow_true. apply login_locked. exact Hl.
  - intros a E Hcount Hage.
    assert (Hl : lockedNow now (lockoutKey req) (failedLoginAttempts w) = false).
    { unfold lockedNow. rewrite E. apply andb_false_iff. right. apply Z.ltb_ge. exact Hage. }
    split_and!.
    + apply (login_window_elapsed _ _ _ a); assumption.
    + intros record Hc. split_and!.
      * destruct (String.eqb_spec (user_totpSecret record) "") as [Hs|Hs].
        -- destruct (login_plain_result _ _ _ _ Hl Hc Hs)
             as (b & w2 & -> & _ & _ & _ & Hf & _).
           cbn [snd]. unfold set_authenticatedUsers; simpl. rewrite Hf.
           apply lookup_delete_eq.
        -- rewrite (login_enrolled _ _ _ _ Hl Hc Hs). apply lookup_delete_eq.
      * intros Hs.
        destruct (login_plain_result _ _ _ _ Hl Hc Hs) as (b & w2 & -> & _).
        eexists _, _. reflexivity.
      * intros Hs. rewrite (login_enrolled _ _ _ _ Hl Hc Hs). eexists. reflexivity.
    + intros Hc. rewrite (login_mismatch _ _ _ Hl Hc). split; [reflexivity|].
      cbn [snd]. unfold set_failedLoginAttempts; simpl. rewrite lookup_insert_eq.
      unfold failuresSoFar. rewrite E.
      apply Z.leb_le in Hcount. rewrite Hcount. reflexivity.
Qed.

(** *** The second-factor routes and the tracker *)

Ltac branches :=
  repeat (simpl in *;
          match goal with
          | |- context [match ?x with _ => _ end] =>
              lazymatch x with
              | context [match _ with _ => _ end] => fail
              | _ => destruct x eqn:?
              end
          end);
  simpl in *.

Lemma findOrCreate_tracker UserId w r w' :
  BasketModel_findOrCreate UserId w = (r, w') →
  failedLoginAttempts w' = failedLoginAttempts w.
Proof.
  unfold BasketModel_findOrCreate. destruct (find _ _); intros [= <- <-]; reflexivity.
Qed.

Lemma findOrCreate_total UserId w e w' :
  BasketModel_findOrCreate UserId w = (Throw e, w') → False.
Proof.
  unfold BasketModel_findOrCreate. destruct (find _ _); discriminate.
Qed.

Ltac no_throw :=
  match goal with
  | E : BasketModel_findOrCreate _ _ = (Throw _, _) |- _ =>
      exfalso; exact (findOrCreate_total _ _ _ _ E)
  end.

Lemma verify_cases now req w :
  verify now req w = (unauthenticated, w)
  ∨ isAuthentication (fst (verify now req w))
    ∧ failedLoginAttempts (snd (verify now req w)) = failedLoginAttempts w.
Proof.
  unfold verify, unauthenticated, isAuthentication. run.
  branches; try no_throw; try (left; reflexivity); right;
    (split; [eexists _, _, _, _; reflexivity |]).
  all: match goal with
       | E : BasketModel_findOrCreate _ _ = _ |- _ =>
           apply findOrCreate_tracker in E; exact E
       end.
Qed.

Lemma verify_tracker now req w :
  failedLoginAttempts (snd (verify now req w)) = failedLoginAttempts w.
Proof.
  destruct (verify_cases now req w) as [-> | [_ E]]; [reflexivity | exact E].
Qed.

Lemma status_tracker now req w :
  failedLoginAttempts (snd (status now req w)) = failedLoginAttempts w.
Proof. unfold status. run. branches; reflexivity. Qed.

Lemma setup_tracker now req w :
  failedLoginAttempts (snd (setup now req w)) = failedLoginAttempts w.
Proof. unfold setup. run. branches; reflexivity. Qed.

Lemma disable_tracker now req w :
  failedLoginAttempts (snd (disable now req w)) = failedLoginAttempts w.
Proof. unfold disable. run. branches; reflexivity. Qed.

Lemma isType_true type expected :
  isType type expected = true ↔ type = Some expected.
Proof.
  unfold isType. destruct type as [t|]; [|split; discriminate].
  rewrite String.eqb_eq. split; congruence.
Qed.

(** C2.  When the pending token does not verify, or decodes to another
    type than the needs-second-factor type, or names no record, or the
    submitted code does not validate against the secret of the record,
    [verify] answers 401 with an empty body and leaves the state as it
    was: the same answer in the four cases.  A signed token of another
    type is the second case. *)
Theorem verify_rejects_alike now req w :
  security_verify now (body_tmpToken req) = false
  ∨ security_decode now (body_tmpToken req) ≫= pl_type
    ≠ Some "password_valid_needs_second_factor_token"
  ∨ (∀ userId, security_decode now (body_tmpToken req) ≫= pl_userId = Some userId →
               recordById userId w = None)
  ∨ (∀ userId user code,
       security_decode now (body_tmpToken req) ≫= pl_userId = Some userId →
       recordById userId w = Some user →
       body_totpToken req = Some code →
       authenticator_check now code (user_totpSecret user) = false) →
  verify now req w = (unauthenticated, w).
Proof.
  intros Hd. unfold verify, unauthenticated, recordById in *. run.
  branches; try no_throw; try reflexivity; exfalso.
  all: repeat match goal with
       | E : negb _ = false |- _ => apply negb_false_iff in E
       end.
  all: destruct Hd as [Hd | [Hd | [Hd | Hd]]].
  all: try congruence.
  all: try (apply Hd; apply isType_true; assumption).
  all: first [ pose proof (Hd _ eq_refl); congruence
             | pose proof (Hd _ _ _ eq_refl ltac:(eassumption) eq_refl); congruence ].
Qed.

(** *** Failures and the tracker *)

(** C7, as the code has it.  A login that matches no record, under a key
    that is not locked, is answered 401, registers no session and counts
    one more failure for its key, stamped with the time of the attempt.
    A login under a locked key is answered 429 and changes nothing.  A
    second-factor completion that does not succeed is answered 401 and
    changes nothing either: the tracker is out of its reach. *)
Theorem failures_and_tracker now req w :
  (¬ isLocked now (lockoutKey req) (failedLoginAttempts w) →
   credentialOf req w = None →
   fst (login now req w) = invalidLogin
   ∧ authenticatedUsers (snd (login now req w)) = authenticatedUsers w
   ∧ failedLoginAttempts (snd (login now req w)) !! lockoutKey req
     = Some {| count := failuresSoFar (lockoutKey req) (failedLoginAttempts w) + 1;
               lastAttempt := now |})
  ∧ (isLocked now (lockoutKey req) (failedLoginAttempts w) →
     login now req w = (tooManyAttempts, w))
  ∧ (¬ isAuthentication (fst (verify now req w)) →
     verify now req w = (unauthenticated, w))
  ∧ failedLoginAttempts (snd (verify now req w)) = failedLoginAttempts w.
Proof.
  split_and!.
  - intros Hl%lockedNow_false Hc. rewrite (login_mismatch _ _ _ Hl Hc).
    split_and!; try reflexivity.
    cbn [snd]. unfold set_failedLoginAttempts; simpl. apply lookup_insert_eq.
  - intros Hl%lockedNow_true. apply login_locked. exact Hl.
  - intros Hn. destruct (verify_cases now req w) as [E | [E _]]; [exact E | tauto].
  - apply verify_tracker.
Qed.

(** *** The bound on the failure count *)

Lemma pastGuard_sub key failed k a :
  pastGuard key failed !! k = Some a → failed !! k = Some a.
Proof.
  unfold pastGuard. destruct (failed !! key) as [b|]; [|auto].
  destruct (FAILED_ATTEMPTS_LIMIT <=? count b); [|auto].
  intros [_ E]%lookup_delete_Some. exact E.
Qed.

Lemma login_bounded now req w :
  bounded (failedLoginAttempts w) →
  bounded (failedLoginAttempts (snd (login now req w))).
Proof.
  intros Hb.
  destruct (lockedNow now (lockoutKey req) (failedLoginAttempts w)) eqn:Hl.
  { rewrite (login_locked _ _ _ Hl). exact Hb. }
  assert (Hdel : bounded (delete (lockoutKey req)
                            (pastGuard (lockoutKey req) (failedLoginAttempts w)))).
  { intros k a [_ E]%lookup_delete_Some. apply pastGuard_sub in E. eapply Hb, E. }
  destruct (credentialOf req w) as [record|] eqn:Hc.
  - destruct (String.eqb_spec (user_totpSecret record) "") as [Hs|Hs].
    + destruct (login_plain_result _ _ _ _ Hl Hc Hs)
        as (b & w2 & -> & _ & _ & _ & Hf & _).
      cbn [snd]. unfold set_authenticatedUsers; simpl. rewrite Hf. exact Hdel.
    + rewrite (login_enrolled _ _ _ _ Hl Hc Hs). exact Hdel.
  - rewrite (login_mismatch _ _ _ Hl Hc). cbn [snd].
    unfold set_failedLoginAttempts, hashed, set_comparatorCalls; simpl.
    intros k a. rewrite lookup_insert. case_decide as Hk.
    + intros [= <-]. simpl. unfold failuresSoFar, FAILED_ATTEMPTS_LIMIT.
      destruct (failedLoginAttempts w !! lockoutKey req) as [b|] eqn:E; [|lia].
      destruct (Z.leb_spec 5 (count b)); [lia|].
      pose proof (Hb _ _ E). lia.
    + intros E%pastGuard_sub. eapply Hb, E.
Qed.

Lemma handledInTurn_bounded w : handledInTurn w → bounded (failedLoginAttempts w).
Proof.
  induction 1 as [w E | | | | | | w w' _ IH E].
  - rewrite E. intros k a. rewrite lookup_empty. discriminate.
  - apply login_bounded. assumption.
  - rewrite verify_tracker. assumption.
  - rewrite status_tracker. assumption.
  - rewrite setup_tracker. assumption.
  - rewrite disable_tracker. assumption.
  - rewrite E. exact IH.
Qed.

(** X21.  When every request is handled to its end before the next
    begins, no entry of the tracker ever counts more than 5 failures,
    whether its window is running or not; and in any state a login under
    a locked key is answered 429 with the state as it was, the log of
    Secret Comparator calls included: no password is hashed for it. *)
Theorem lockout_bound_and_early_reject w :
  handledInTurn w →
  (∀ key a, failedLoginAttempts w !! key = Some a → count a ≤ FAILED_ATTEMPTS_LIMIT)
  ∧ ∀ now req,
      isLocked now (lockoutKey req) (failedLoginAttempts w) →
      fst (login now req w) = tooManyAttempts
      ∧ comparatorCalls (snd (login now req w)) = comparatorCalls w
      ∧ snd (login now req w) = w.
Proof.
  intros Hr. split.
  - intros key a E. apply (handledInTurn_bounded _ Hr) in E. lia.
  - intros now req Hl%lockedNow_true. rewrite (login_locked _ _ _ Hl). auto.
Qed.

(** The handler as a whole is its guard followed, unless the guard
    answers, by its [try] block. *)
Lemma login_phases now req w :
  (∃ response, loginGuard now req w = (Ok (Some response), w)
               ∧ login now req w = (response, w))
  ∨ (∃ w', loginGuard now req w = (Ok None, w')
           ∧ login now req w = handle (loginAttempt now req) w').
Proof.
  unfold login, loginGuard. run.
  destruct (failedLoginAttempts w !! (default "" (body_email req) +:+ ":" +:+ ip req))
    as [a|]; [|right; eauto].
  destruct (FAILED_ATTEMPTS_LIMIT <=? count a); [|right; eauto].
  destruct (now - lastAttempt a <? LOCK_TIME_MS); [left; eauto|right; eauto].
Qed.

(** Handling the requests in turn is one way the program runs: a state
    reached in turn is reached with no request pending. *)
Lemma handledInTurn_reachable w : handledInTurn w → reachable [] w.
Proof.
  induction 1 as [w E | now req w _ IH | now req w _ IH | now req w _ IH
                 | now req w _ IH | now req w _ IH | w w' _ IH E].
  - apply reach_start. exact E.
  - destruct (login_phases now req w) as [(response & Hg & ->) | (w' & Hg & ->)].
    + exact IH.
    + apply (reach_attempt now req [] []).
      apply (reach_guard_pass now req [] w w' IH Hg).
  - eapply reach_elsewhere; [exact IH|]. apply verify_tracker.
  - eapply reach_elsewhere; [exact IH|]. apply status_tracker.
  - eapply reach_elsewhere; [exact IH|]. apply setup_tracker.
  - eapply reach_elsewhere; [exact IH|]. apply disable_tracker.
  - eapply reach_elsewhere; [exact IH|]. exact E.
Qed.

(** *** Enrollment *)

(** C8.  For a session whose identity has no TOTP secret, [status] draws
    a secret from the generator and answers 200 with the secret, the
    email and a setup token that verifies, has the setup-secret type and
    carries that very secret.  For an identity with a secret it answers
    200 with [setup: true] alone.  Without a session it answers 401. *)
Theorem status_reports now req w :
  (∀ session user,
     sessionOf now req w = Some session → data session = Some user →
     user_totpSecret user = "" →
     ∃ secret setupToken,
       status now req w
         = (Send 200 (SetupData secret (user_email user) setupToken), set_entropy S w)
       ∧ secret = secretOf (entropy w)
       ∧ setupToken = security_authorize now (setupTokenPayload secret)
       ∧ security_verify now (Some setupToken) = true
       ∧ security_decode now (Some setupToken) ≫= pl_type = Some "totp_setup_secret"
       ∧ security_decode now (Some setupToken) ≫= pl_secret = Some secret)
  ∧ (∀ session user,
       sessionOf now req w = Some session → data session = Some user →
       user_totpSecret user ≠ "" →
       status now req w = (Send 200 SetupDone, w))
  ∧ (sessionOf now req w = None → status now req w = (unauthenticated, w)).
Proof.
  unfold status, unauthenticated. split_and!.
  - intros session user Hs Hd Ht.
    eexists _, _. split_and!; [| reflexivity | reflexivity | ..].
    + unfold handle, catch, mbind, M_bind. rewrite from_sessionOf, Hs, Hd, Ht. reflexivity.
    + apply verify_authorize_now.
    + rewrite decode_authorize_now. reflexivity.
    + rewrite decode_authorize_now. reflexivity.
  - intros session user Hs Hd Ht%String.eqb_neq.
    unfold handle, catch, mbind, M_bind. rewrite from_sessionOf, Hs, Hd, Ht. reflexivity.
  - intros Hs. unfold handle, catch, mbind, M_bind. rewrite from_sessionOf, Hs. reflexivity.
Qed.

Lemma sessionOf_bearer now req w session :
  sessionOf now req w = Some session →
  ∃ t, bearer req = Some t ∧ authenticatedUsers w !! t = Some session
       ∧ (now <? tok_exp t) = true.
Proof.
  unfold sessionOf, found, authenticatedUsers_from, gets. simpl.
  destruct (bearer req) as [t|]; [|discriminate].
  destruct (now <? tok_exp t) eqn:E; [|discriminate]. eauto.
Qed.

Lemma setup_success now req w user record secret :
  setupChecks now req w user record secret →
  ∃ t password,
    bearer req = Some t ∧ body_password req = Some password
    ∧ setup now req w
      = (Send 200 Empty,
         set_authenticatedUsers
           (alter (λ _, queryResultToJson (Some (withSecret record secret))) t)
           (set_UserModel
              (map (λ v, if Pos.eqb (user_id v) (user_id record)
                         then withSecret record secret else v))
              (set_comparatorCalls
                 (λ l, ConstantTimeCompare (user_password user) (digest password)
                         :: Hash password :: l) w))).
Proof.
  intros ((session & Hs & Hd) & (password & Hp & Hpw) & Ht & (Hv & Hty & Hsec)
          & (code & Hcode & Hcheck) & Hrec).
  destruct (sessionOf_bearer _ _ _ _ Hs) as (t & Hb & _).
  exists t, password. split_and!; [assumption | assumption |].
  unfold setup, handle, catch, mbind, M_bind.
  rewrite from_sessionOf, Hs, Hd, Hp. cbn [security_hash security_constantTimeCompare].
  rewrite Hpw, String.eqb_refl. cbn [negb]. rewrite Ht. cbn [String.eqb negb].
  rewrite Hv. unfold mbind in Hty, Hsec. rewrite Hty, Hsec.
  cbn [isType]. rewrite String.eqb_refl. cbn [negb].
  rewrite Hcode. cbn [authenticator_check_opt mret M_ret]. rewrite Hcheck. cbn [negb].
  unfold UserModel_findByPk, gets.
  unfold recordById, found, UserModel_findByPk, gets in Hrec. cbn [fst] in Hrec.
  unfold set_comparatorCalls at 1 2. cbn [UserModel]. rewrite Hrec.
  unfold authenticatedUsers_updateFrom. rewrite Hb. reflexivity.
Qed.

Lemma setup_cases now req w :
  (∃ user record secret, setupChecks now req w user record secret)
  ∨ fst (setup now req w) = unauthenticated.
Proof.
  unfold setup, unauthenticated, setupChecks, sessionOf, recordById. run.
  branches; try (right; reflexivity); left.
  all: repeat match goal with
       | E : negb _ = false |- _ => apply negb_false_iff in E
       | E : String.eqb _ _ = true |- _ => apply String.eqb_eq in E
       | E : isType _ _ = true |- _ => apply isType_true in E
       end.
  all: eexists _, _, _; split_and!; eauto.
Qed.

Lemma find_saved pk (l : list User) record saved :
  find (λ u, Pos.eqb (user_id u) pk) l = Some record →
  user_id saved = pk →
  find (λ u, Pos.eqb (user_id u) pk)
       (map (λ v, if Pos.eqb (user_id v) pk then saved else v) l)
  = Some saved.
Proof.
  intros Hf Hid. induction l as [|v l IH]; [discriminate|].
  simpl in *. destruct (Pos.eqb (user_id v) pk) eqn:E.
  - rewrite Hid, Pos.eqb_refl. reflexivity.
  - rewrite E. auto.
Qed.

Lemma recordById_id pk w record :
  recordById pk w = Some record → user_id record = pk.
Proof.
  unfold recordById. intros [_ E]%find_some. apply Pos.eqb_eq. exact E.
Qed.

Lemma setup_again now req w t user :
  bearer req = Some t →
  authenticatedUsers w !! t = Some (queryResultToJson (Some user)) →
  user_totpSecret user ≠ "" →
  fst (setup now req w) = unauthenticated.
Proof.
  intros Hb Hl Hs%String.eqb_neq. unfold setup, unauthenticated. run.
  rewrite Hb. destruct (now <? tok_exp t); [|reflexivity].
  rewrite Hl. simpl.
  destruct (body_password req) as [password|]; [|reflexivity]. simpl.
  destruct (String.eqb (user_password user) (digest password)); [|reflexivity].
  simpl. rewrite Hs. reflexivity.
Qed.

(** C5, as the code has it.  [setup] answers 200 exactly when a session
    resolves, the hash of the submitted password equals the stored one,
    the identity of the session has no TOTP secret, the setup token
    verifies and has the setup-secret type, the first code validates
    against the secret of the token, and the record of the identity is
    found by its id; otherwise it answers 401.  When it answers 200 the
    record has been saved with the secret and the snapshot of the session
    replaced by the saved record, so that a further [setup] on that
    session is answered 401 whenever the secret is not empty, as every
    secret of a setup token that [status] issued is. *)
Theorem setup_enrolls now req w :
  (fst (setup now req w) = Send 200 Empty
   ↔ ∃ user record secret, setupChecks now req w user record secret)
  ∧ (fst (setup now req w) = Send 200 Empty
     ∨ fst (setup now req w) = unauthenticated)
  ∧ ∀ user record secret,
      setupChecks now req w user record secret →
      recordById (user_id user) (snd (setup now req w)) = Some (withSecret record secret)
      ∧ (∃ t, bearer req = Some t
              ∧ authenticatedUsers (snd (setup now req w)) !! t
                = Some (queryResultToJson (Some (withSecret record secret))))
      ∧ (secret ≠ "" →
         ∀ now' req', bearer req' = bearer req →
           fst (setup now' req' (snd (setup now req w))) = unauthenticated)
      ∧ ∀ issued n,
          body_setupToken req
            = Some (security_authorize issued (setupTokenPayload (secretOf n))) →
          ∀ now' req', bearer req' = bearer req →
            fst (setup now' req' (snd (setup now req w))) = unauthenticated.
Proof.
  assert (Hafter : ∀ user record secret,
            setupChecks now req w user record secret →
            fst (setup now req w) = Send 200 Empty
            ∧ recordById (user_id user) (snd (setup now req w))
              = Some (withSecret record secret)
            ∧ ∃ t, bearer req = Some t
                   ∧ authenticatedUsers (snd (setup now req w)) !! t
                     = Some (queryResultToJson (Some (withSecret record secret)))).
  { intros user record secret Hc.
    destruct (setup_success _ _ _ _ _ _ Hc) as (t & password & Hb & Hp & ->).
    destruct Hc as ((session & Hs & Hd) & _ & _ & _ & _ & Hrec).
    destruct (sessionOf_bearer _ _ _ _ Hs) as (t' & Hb' & Hl & _).
    assert (t' = t) as -> by congruence.
    cbn [fst snd]. split_and!.
    - reflexivity.
    - unfold recordById, set_authenticatedUsers, set_UserModel; simpl.
      rewrite (recordById_id _ _ _ Hrec).
      apply (find_saved _ _ record); [exact Hrec|].
      simpl. apply (recordById_id _ _ _ Hrec).
    - exists t. split; [exact Hb|].
      unfold set_authenticatedUsers; simpl. rewrite lookup_alter_eq, Hl. reflexivity. }
  assert (Hsecond : ∀ user record secret,
            setupChecks now req w user record secret → secret ≠ "" →
            ∀ now' req', bearer req' = bearer req →
              fst (setup now' req' (snd (setup now req w))) = unauthenticated).
  { intros user record secret Hc Hne now' req' Hb.
    destruct (Hafter _ _ _ Hc) as (_ & _ & t & Ht & Hl).
    apply (setup_again _ _ _ t (withSecret record secret)); [congruence | exact Hl | exact Hne]. }
  split_and!.
  - split.
    + intros E. destruct (setup_cases now req w) as [Hc | E']; [exact Hc|].
      rewrite E' in E. discriminate.
    + intros (user & record & secret & Hc). apply (Hafter _ _ _ Hc).
  - destruct (setup_cases now req w) as [(user & record & secret & Hc) | E'];
      [left; apply (Hafter _ _ _ Hc) | right; exact E'].
  - intros user record secret Hc. destruct (Hafter _ _ _ Hc) as (_ & Hr & Ht). split_and!.
    + exact Hr.
    + exact Ht.
    + apply (Hsecond _ _ _ Hc).
    + intros issued n Htok. apply (Hsecond _ _ _ Hc).
      destruct Hc as (_ & _ & _ & (Hv & _ & Hsec) & _).
      rewrite Htok in Hsec, Hv. unfold security_decode in Hsec. rewrite Hv in Hsec.
      simpl in Hsec. injection Hsec as <-. apply secretOf_nonempty.
Qed.

(** *** The one-time code *)

Lemma counter_ahead epoch k :
  authenticator_counter (epoch + k * authenticator_step * 1000)
  = authenticator_counter epoch + k.
Proof.
  unfold authenticator_counter, authenticator_step.
  rewrite Z.div_add by lia. rewrite Z.div_add by lia. reflexivity.
Qed.

Lemma counter_back epoch k :
  authenticator_counter (epoch - k * authenticator_step * 1000)
  = authenticator_counter epoch - k.
Proof.
  replace (epoch - k * authenticator_step * 1000)
    with (epoch + (- k) * authenticator_step * 1000) by lia.
  rewrite counter_ahead. lia.
Qed.

(** C9.  With the window of one step [2fa.ts] sets, [check] accepts a
    code exactly when it is the code of the secret at the current time
    step, at the step before or at the step after; so a code of a step
    two or more away that is not also the code of one of these three is
    rejected. *)
Theorem check_window now code secret :
  (authenticator_check now code secret = true
   ↔ code = hotp secret (authenticator_counter now - 1)
     ∨ code = hotp secret (authenticator_counter now)
     ∨ code = hotp secret (authenticator_counter now + 1))
  ∧ (authenticator_check (now - authenticator_step * 1000)
       (hotp secret (authenticator_counter now)) secret = true
     ∧ authenticator_check (now + authenticator_step * 1000)
         (hotp secret (authenticator_counter now)) secret = true)
  ∧ ∀ k, 2 ≤ Z.abs k →
         code = hotp secret (authenticator_counter now + k) →
         (∀ d, -1 ≤ d ≤ 1 → code ≠ hotp secret (authenticator_counter now + d)) →
         authenticator_check now code secret = false.
Proof.
  assert (Hiff : ∀ epoch token,
            authenticator_check epoch token secret = true
            ↔ token = hotp secret (authenticator_counter epoch - 1)
              ∨ token = hotp secret (authenticator_counter epoch)
              ∨ token = hotp secret (authenticator_counter epoch + 1)).
  { intros epoch token.
    unfold authenticator_check, authenticator_options, authenticator_epochs.
    cbn [window seq flat_map app existsb]. change (Z.of_nat 1) with 1.
    rewrite (counter_back epoch 1), (counter_ahead epoch 1).
    rewrite !orb_true_iff, !String.eqb_eq. intuition discriminate. }
  split_and!.
  - apply Hiff.
  - apply Hiff. right. right.
    replace (now - authenticator_step * 1000)
      with (now - 1 * authenticator_step * 1000) by lia.
    rewrite counter_back. f_equal. lia.
  - apply Hiff. left.
    replace (now + authenticator_step * 1000)
      with (now + 1 * authenticator_step * 1000) by lia.
    rewrite counter_ahead. f_equal. lia.
  - intros k _ _ Hno. apply not_true_is_false. intros [E | [E | E]]%Hiff.
    + apply (Hno (-1)); [lia | exact E].
    + apply (Hno 0); [lia|]. rewrite Z.add_0_r. exact E.
    + apply (Hno 1); [lia | exact E].
Qed.

End Properties.

(** ** Properties of the public-file route *)

Section PublicFileProperties.
Import PublicFiles.

Lemma replace_no_slash_upto n file c :
  (String.length file ≤ n)%nat →
  isSlash c = true →
  includes c (replaceDangerousFragments file) = false.
Proof.
  revert file. induction n as [|n IH]; intros file Hlen Hc.
  { destruct file; [reflexivity | simpl in Hlen; lia]. }
  destruct file as [|a rest]; [reflexivity|].
  assert (Hkeep : isSlash a = false →
                  includes c (String a (replaceDangerousFragments rest)) = false).
  { intros Ha. simpl. rewrite IH by (simpl in Hlen; lia || assumption).
    destruct (Ascii.eqb_spec a c) as [->|]; [congruence | reflexivity]. }
  assert (Hdrop : includes c (replaceDangerousFragments rest) = false).
  { apply IH; [simpl in Hlen; lia | exact Hc]. }
  simpl. destruct rest as [|d [|e rest']].
  - destruct (isSlash a) eqn:Ha; [exact Hdrop | exact (Hkeep eq_refl)].
  - destruct (isSlash a) eqn:Ha; [exact Hdrop | exact (Hkeep eq_refl)].
  - destruct (Ascii.eqb a "." && Ascii.eqb d "." && isSlash e).
    + apply IH; [simpl in Hlen; lia | exact Hc].
    + destruct (isSlash a) eqn:Ha; [exact Hdrop | exact (Hkeep eq_refl)].
Qed.

Lemma replace_no_slash file :
  includes "/" (replaceDangerousFragments file) = false
  ∧ includes "\" (replaceDangerousFragments file) = false.
Proof.
  split; apply (replace_no_slash_upto (String.length file)); auto.
Qed.

Lemma prefix_rest a b :
  String.prefix a b = true → ∃ rest, b = a +:+ rest.
Proof.
  revert b. induction a as [|c a IH]; intros b Hp.
  - exists b. reflexivity.
  - destruct b as [|d b]; [discriminate|]. simpl in Hp.
    destruct (ascii_dec c d) as [->|]; [|discriminate].
    destruct (IH _ Hp) as [rest ->]. exists rest. reflexivity.
Qed.

Lemma append_nil b : "" +:+ b = b.
Proof. reflexivity. Qed.

Lemma append_cons c a b : String c a +:+ b = String c (a +:+ b).
Proof. reflexivity. Qed.

Lemma append_nil_r a : a +:+ "" = a.
Proof. induction a as [|c a IH]; [reflexivity|]. rewrite append_cons, IH. reflexivity. Qed.

Lemma append_assoc a b c : (a +:+ b) +:+ c = a +:+ b +:+ c.
Proof.
  induction a as [|x a IH]; [reflexivity|]. rewrite !append_cons, IH. reflexivity.
Qed.

Lemma endsInSlash_app a b :
  b ≠ "" → endsInSlash (a +:+ b) = endsInSlash b.
Proof.
  intros Hb. induction a as [|c a IH]; [reflexivity|].
  rewrite append_cons. cbn [endsInSlash]. destruct (a +:+ b) eqn:E; [|exact IH].
  destruct a; [rewrite append_nil in E; congruence | rewrite append_cons in E; discriminate].
Qed.

Lemma endsInSlash_includes s :
  includes "/" s = false → endsInSlash s = false.
Proof.
  induction s as [|c s IH]; [reflexivity|]. simpl.
  intros [Hc Hs]%orb_false_iff. destruct s; [exact Hc | auto].
Qed.

Lemma includes_snoc c s d :
  includes c (s +:+ String d EmptyString) = includes c s || Ascii.eqb d c.
Proof.
  induction s as [|a s IH].
  - rewrite append_nil. simpl. apply orb_false_r.
  - rewrite append_cons. simpl. rewrite IH. apply orb_assoc.
Qed.

Lemma segments_no_slash path current :
  includes "/" current = false →
  Forall (λ s, includes "/" s = false) (segments path current).
Proof.
  revert current. induction path as [|c path IH]; intros current Hc; simpl.
  - repeat constructor. exact Hc.
  - destruct (Ascii.eqb c "/") eqn:E.
    + constructor; [exact Hc | apply IH; reflexivity].
    + apply IH. rewrite includes_snoc, Hc, E. reflexivity.
Qed.

Lemma normalizeSegments_proper todo reached :
  Forall (λ s, includes "/" s = false) todo →
  Forall properSegment reached →
  Forall properSegment (normalizeSegments todo reached).
Proof.
  intros Ht. revert reached. induction Ht as [|s todo Hs _ IH]; intros reached Hr; simpl.
  - apply Forall_rev. exact Hr.
  - destruct (String.eqb_spec s "") as [|Hne]; simpl; [auto|].
    destruct (String.eqb s "."); [auto|].
    destruct (String.eqb s "..").
    + apply IH. destruct Hr; [constructor | assumption].
    + apply IH. constructor; [split; assumption | exact Hr].
Qed.

Lemma joinSegments_end l :
  l ≠ [] → Forall properSegment l → endsInSlash (joinSegments l) = false.
Proof.
  intros Hne Hl. induction Hl as [|s l [Hs Hsl] Hl IH]; [congruence|].
  destruct l as [|s' l'].
  - change (joinSegments [s]) with ("/" +:+ s +:+ "").
    rewrite append_nil_r.
    rewrite endsInSlash_app by exact Hs. apply endsInSlash_includes, Hsl.
  - change (joinSegments (s :: s' :: l'))
      with (("/" +:+ s) +:+ joinSegments (s' :: l')).
    rewrite endsInSlash_app by discriminate. apply IH. discriminate.
Qed.

Lemma path_resolve_shape cwd paths :
  path_resolve cwd paths = "/"
  ∨ endsInSlash (path_resolve cwd paths) = false ∧ path_resolve cwd paths ≠ "".
Proof.
  unfold path_resolve.
  pose proof (normalizeSegments_proper
                (segments (resolveFrom cwd (rev paths) "") "") []
                (segments_no_slash _ "" eq_refl) (List.Forall_nil _)) as Hp.
  destruct (normalizeSegments _ _) as [|s l] eqn:E; [left; reflexivity|].
  right. split; [apply joinSegments_end; [discriminate | exact Hp] | discriminate].
Qed.

Lemma inside_strictly cwd base paths :
  base ≠ "" →
  String.prefix (base +:+ sep) (path_resolve cwd paths) = true →
  ∃ rest, rest ≠ "" ∧ path_resolve cwd paths = base +:+ sep +:+ rest.
Proof.
  intros Hb [rest E]%prefix_rest.
  rewrite append_assoc in E. exists rest. split; [|exact E].
  intros ->. destruct (path_resolve_shape cwd paths) as [Hroot | [Hend _]].
  - rewrite Hroot in E. destruct base as [|c [|d base]]; [congruence | discriminate..].
  - rewrite E in Hend. rewrite endsInSlash_app in Hend by discriminate. discriminate.
Qed.

Lemma path_resolve_nonempty cwd paths : path_resolve cwd paths ≠ "".
Proof.
  destruct (path_resolve_shape cwd paths) as [-> | [_ Hne]]; [discriminate | exact Hne].
Qed.

(** C10.  A file parameter with a forward or backward slash is refused
    with status 403.  A file is sent only when the parameter has no
    slash and ends in [.md] or [.pdf] or is [incident-support.kdbx]; the
    path sent is then the resolution, under the [ftp] directory, of the
    name with slashes and [../] fragments removed, and it is that
    directory's path, a separator and something more.  A resolution that
    does not begin with the directory and a separator is refused with
    status 403, as is every other request that sends no file. *)
Theorem servePublicFiles_confined cwd cutOffPoisonNullByte file :
  (includes "/" file = true ∨ includes "\" file = true →
   servePublicFiles cwd cutOffPoisonNullByte file
   = Next 403 "File names cannot contain forward or backward slashes!")
  ∧ (∀ path,
       servePublicFiles cwd cutOffPoisonNullByte file = SendFile path →
       includes "/" file = false ∧ includes "\" file = false
       ∧ (endsWith file ".md" = true ∨ endsWith file ".pdf" = true
          ∨ file = "incident-support.kdbx")
       ∧ ∃ sanitizedFile rest,
           sanitizedFile = replaceDangerousFragments (cutOffPoisonNullByte file)
           ∧ includes "/" sanitizedFile = false
           ∧ includes "\" sanitizedFile = false
           ∧ path = path_resolve cwd [path_resolve cwd ["ftp/"]; sanitizedFile]
           ∧ rest ≠ ""
           ∧ path = path_resolve cwd ["ftp/"] +:+ sep +:+ rest)
  ∧ (includes "/" file = false → includes "\" file = false →
     file ≠ "" →
     endsWith file ".md" = true ∨ endsWith file ".pdf" = true
       ∨ file = "incident-support.kdbx" →
     String.prefix (path_resolve cwd ["ftp/"] +:+ sep)
       (path_resolve cwd [path_resolve cwd ["ftp/"];
                          replaceDangerousFragments (cutOffPoisonNullByte file)])
     = false →
     servePublicFiles cwd cutOffPoisonNullByte file
     = Next 403 "File path traversal attempt detected!")
  ∧ ((∃ path, servePublicFiles cwd cutOffPoisonNullByte file = SendFile path)
     ∨ ∃ error, servePublicFiles cwd cutOffPoisonNullByte file = Next 403 error).
Proof.
  unfold servePublicFiles, verify. split_and!.
  - intros [-> | ->]; [reflexivity | rewrite andb_false_r; reflexivity].
  - intros path.
    destruct (includes "/" file); [discriminate|].
    destruct (includes "\" file); [discriminate|]. cbn [negb andb].
    destruct (negb (String.eqb file "")); [|discriminate]. cbn [andb].
    destruct (endsWithAllowlistedFileType file
              || String.eqb file "incident-support.kdbx") eqn:Hallow; [|discriminate].
    destruct (String.prefix _ _) eqn:Hpre; [|discriminate]. cbn [negb].
    intros [= <-]. split_and!; try reflexivity.
    + unfold endsWithAllowlistedFileType in Hallow.
      apply orb_true_iff in Hallow as [[?|?]%orb_true_iff | ?%String.eqb_eq]; auto.
    + destruct (inside_strictly cwd _ _ (path_resolve_nonempty cwd _) Hpre)
        as (rest & Hrest & E).
      eexists _, rest. split_and!; try reflexivity; try assumption;
        apply replace_no_slash.
  - intros -> -> Hne Hallow Hpre. cbn [negb andb].
    apply String.eqb_neq in Hne. rewrite Hne. cbn [negb andb].
    assert (endsWithAllowlistedFileType file
            || String.eqb file "incident-support.kdbx" = true) as ->.
    { unfold endsWithAllowlistedFileType.
      destruct Hallow as [-> | [-> | ->]]; [reflexivity | apply orb_true_iff; left;
        apply orb_true_r | apply orb_true_r]. }
    rewrite Hpre. reflexivity.
  - destruct (negb (includes "/" file) && negb (includes "\" file)); [|right; eauto].
    destruct (negb (String.eqb file "") && _); [|right; eauto].
    destruct (negb (String.prefix _ _)); [right; eauto | left; eauto].
Qed.

End PublicFileProperties.

(** ** Scenarios *)

Section Scenarios.
Import Sample.

(** C1, the claim as stated fails: with five failures on record for the
    key, a login six seconds later with the right password of the
    enrolled [wurstbrot] is answered 429, not with a pending token. *)
Lemma login_enrolled_locked_out :
  credentialOf (credentials "wurstbrot@juice-sh.op" "EinBelegtesBrot") afterFiveFailures
    = Some wurstbrot
  ∧ user_totpSecret wurstbrot ≠ ""
  ∧ fst (login 6000 (credentials "wurstbrot@juice-sh.op" "EinBelegtesBrot")
           afterFiveFailures)
    = tooManyAttempts
  ∧ ∀ tmpToken,
      fst (login 6000 (credentials "wurstbrot@juice-sh.op" "EinBelegtesBrot")
             afterFiveFailures)
      ≠ Send 401 (TotpTokenRequired tmpToken).
Proof.
  assert (E : fst (login 6000 (credentials "wurstbrot@juice-sh.op" "EinBelegtesBrot")
                     afterFiveFailures) = tooManyAttempts) by (vm_compute; reflexivity).
  split_and!.
  - vm_compute. reflexivity.
  - discriminate.
  - exact E.
  - intros tmpToken. rewrite E. discriminate.
Qed.

Lemma login_enrolled_pending_witness :
  credentialOf (credentials "wurstbrot@juice-sh.op" "EinBelegtesBrot") shop = Some wurstbrot
  ∧ user_totpSecret wurstbrot ≠ ""
  ∧ authenticatedUsers
      (snd (login 1000 (credentials "wurstbrot@juice-sh.op" "EinBelegtesBrot") shop))
    = authenticatedUsers shop.
Proof.
  assert (Hc : credentialOf (credentials "wurstbrot@juice-sh.op" "EinBelegtesBrot") shop
               = Some wurstbrot) by (vm_compute; reflexivity).
  assert (Hs : user_totpSecret wurstbrot ≠ "") by discriminate.
  split; [exact Hc|]. split; [exact Hs|].
  exact (proj1 (proj2 (login_enrolled_pending 1000 _ shop wurstbrot Hc Hs))).
Defined.

Lemma verify_rejects_alike_witness :
  security_decode 3000 (body_tmpToken (secondFactor jimSetupToken "A#A")) ≫= pl_type
    ≠ Some "password_valid_needs_second_factor_token"
  ∧ verify 3000 (secondFactor jimSetupToken "A#A") shop = (unauthenticated, shop).
Proof.
  assert (Ht : security_decode 3000 (body_tmpToken (secondFactor jimSetupToken "A#A"))
                 ≫= pl_type
               ≠ Some "password_valid_needs_second_factor_token")
    by (vm_compute; discriminate).
  split; [exact Ht|].
  exact (verify_rejects_alike 3000 _ shop (or_intror (or_introl Ht))).
Defined.

Lemma login_lockout_witness :
  failedLoginAttempts afterFiveFailures !! wurstbrotKey
    = Some {| count := 5; lastAttempt := 5000 |}
  ∧ login 6000 (credentials "wurstbrot@juice-sh.op" "EinBelegtesBrot") afterFiveFailures
    = (tooManyAttempts, afterFiveFailures)
  ∧ failedLoginAttempts
      (snd (login 905000 (credentials "wurstbrot@juice-sh.op" "EinBelegtesBrot")
              afterFiveFailures)) !! wurstbrotKey
    = None.
Proof.
  assert (E : failedLoginAttempts afterFiveFailures !! wurstbrotKey
              = Some {| count := 5; lastAttempt := 5000 |}) by (vm_compute; reflexivity).
  split; [exact E|]. split.
  - apply (proj1 (proj2 (login_lockout 6000
             (credentials "wurstbrot@juice-sh.op" "EinBelegtesBrot") afterFiveFailures))).
    exists {| count := 5; lastAttempt := 5000 |}.
    split; [exact E|]. unfold FAILED_ATTEMPTS_LIMIT, LOCK_TIME_MS. simpl. lia.
  - refine (proj1 (proj1 (proj2 (proj2 (proj2 (login_lockout 905000
             (credentials "wurstbrot@juice-sh.op" "EinBelegtesBrot") afterFiveFailures))
             {| count := 5; lastAttempt := 5000 |} E _ _)) wurstbrot _)).
    + unfold FAILED_ATTEMPTS_LIMIT. simpl. lia.
    + unfold LOCK_TIME_MS. simpl. lia.
    + vm_compute. reflexivity.
Defined.

Lemma lockout_bound_and_early_reject_witness :
  handledInTurn afterFiveFailures
  ∧ ∀ key a, failedLoginAttempts afterFiveFailures !! key = Some a →
             count a ≤ FAILED_ATTEMPTS_LIMIT.
Proof.
  assert (Hr : handledInTurn afterFiveFailures).
  { unfold afterFiveFailures. cbn [fold_left].
    do 5 apply turn_login. apply turn_start. reflexivity. }
  split; [exact Hr|].
  exact (proj1 (lockout_bound_and_early_reject afterFiveFailures Hr)).
Defined.

(** C5, the claim as stated fails: [jim] is logged in, his password,
    his setup token and his first code are right and he has no secret,
    but his record is gone; [setup] answers 401. *)
Lemma setup_refused_without_record :
  setupChecksOfSpec 3000 (enrollment jimToken "ncc-1701" jimSetupToken "A#A")
    jimErased jim "A"
  ∧ fst (setup 3000 (enrollment jimToken "ncc-1701" jimSetupToken "A#A") jimErased)
    = unauthenticated
  ∧ fst (setup 3000 (enrollment jimToken "ncc-1701" jimSetupToken "A#A") jimErased)
    ≠ Send 200 Empty.
Proof.
  assert (E : fst (setup 3000 (enrollment jimToken "ncc-1701" jimSetupToken "A#A") jimErased)
              = unauthenticated) by (vm_compute; reflexivity).
  split; [|split; [exact E | rewrite E; discriminate]].
  unfold setupChecksOfSpec. split_and!.
  - eexists. split; vm_compute; reflexivity.
  - exists "ncc-1701". split; reflexivity.
  - reflexivity.
  - vm_compute. reflexivity.
  - vm_compute. reflexivity.
  - vm_compute. reflexivity.
  - exists "A#A". split; [reflexivity | vm_compute; reflexivity].
Qed.

Lemma setup_enrolls_witness :
  fst (setup 3000 (enrollment jimToken "ncc-1701" jimSetupToken "A#A") jimLoggedIn)
    = Send 200 Empty
  ∧ recordById 2 (snd (setup 3000 (enrollment jimToken "ncc-1701" jimSetupToken "A#A")
                         jimLoggedIn))
    = Some (withSecret jim "A")
  ∧ fst (setup 4000 (enrollment jimToken "ncc-1701" jimSetupToken "A#A")
           (snd (setup 3000 (enrollment jimToken "ncc-1701" jimSetupToken "A#A")
                   jimLoggedIn)))
    = unauthenticated.
Proof.
  assert (Hc : setupChecks 3000 (enrollment jimToken "ncc-1701" jimSetupToken "A#A")
                 jimLoggedIn jim jim "A").
  { unfold setupChecks. split_and!.
    - eexists. split; vm_compute; reflexivity.
    - exists "ncc-1701". split; reflexivity.
    - reflexivity.
    - vm_compute. reflexivity.
    - vm_compute. reflexivity.
    - vm_compute. reflexivity.
    - exists "A#A". split; [reflexivity | vm_compute; reflexivity].
    - vm_compute. reflexivity. }
  pose proof (setup_enrolls 3000 (enrollment jimToken "ncc-1701" jimSetupToken "A#A")
                jimLoggedIn) as (Hiff & _ & Hafter).
  destruct (Hafter jim jim "A" Hc) as (Hrec & _ & Hagain & _).
  split_and!.
  - apply Hiff. exists jim, jim, "A". exact Hc.
  - exact Hrec.
  - apply Hagain; [discriminate | reflexivity].
Defined.

Lemma login_opens_session_witness :
  ¬ isLocked 1000 (lockoutKey (credentials "jim@juice-sh.op" "ncc-1701"))
      (failedLoginAttempts shop)
  ∧ credentialOf (credentials "jim@juice-sh.op" "ncc-1701") shop = Some jim
  ∧ user_totpSecret jim = ""
  ∧ ∃ basket,
      fst (login 1000 (credentials "jim@juice-sh.op" "ncc-1701") shop)
        = Send 200 (Authentication jimToken (basket_id basket) "jim@juice-sh.op")
      ∧ fst (authenticatedUsers_from 2000 (withToken jimToken) jimLoggedIn)
        = Ok (Some {| data := Some jim; bid := Some (basket_id basket) |}).
Proof.
  assert (Hl : ¬ isLocked 1000 (lockoutKey (credentials "jim@juice-sh.op" "ncc-1701"))
                   (failedLoginAttempts shop)).
  { intros (a & E & _). vm_compute in E. discriminate. }
  assert (Hc : credentialOf (credentials "jim@juice-sh.op" "ncc-1701") shop = Some jim)
    by (vm_compute; reflexivity).
  split; [exact Hl|]. split; [exact Hc|]. split; [reflexivity|].
  destruct (login_opens_session 1000 _ shop jim Hl Hc eq_refl)
    as (basket & Hr & _ & _ & _ & _ & _ & _ & _ & Hfrom).
  exists basket. split; [exact Hr|].
  apply Hfrom; [reflexivity | vm_compute; reflexivity].
Defined.

(** C7, the claim as stated fails: one failure is on record for
    [wurstbrot]'s key; a second-factor completion with her pending token
    and a wrong code is answered 401, and the entry still counts one. *)
Lemma verify_failure_not_counted :
  failedLoginAttempts afterOneFailure !! wurstbrotKey
    = Some {| count := 1; lastAttempt := 1000 |}
  ∧ fst (verify 2000 (secondFactor wurstbrotPending "000000") afterOneFailure)
    = unauthenticated
  ∧ failedLoginAttempts
      (snd (verify 2000 (secondFactor wurstbrotPending "000000") afterOneFailure))
      !! wurstbrotKey
    = Some {| count := 1; lastAttempt := 1000 |}.
Proof. split_and!; vm_compute; reflexivity. Qed.

Lemma failures_and_tracker_witness :
  failedLoginAttempts
    (snd (login 2000 (credentials "wurstbrot@juice-sh.op" "guess") afterOneFailure))
    !! wurstbrotKey
  = Some {| count := 2; lastAttempt := 2000 |}.
Proof.
  refine (proj2 (proj2 (proj1 (failures_and_tracker 2000
            (credentials "wurstbrot@juice-sh.op" "guess") afterOneFailure) _ _))).
  - intros (a & E & Hlimit & _). vm_compute in E. injection E as <-.
    vm_compute in Hlimit. apply Hlimit. reflexivity.
  - vm_compute. reflexivity.
Defined.

Lemma status_reports_witness :
  fst (status 2000 (withToken jimToken) jimLoggedIn)
  = Send 200 (SetupData "A" "jim@juice-sh.op" jimSetupToken).
Proof.
  destruct (proj1 (status_reports 2000 (withToken jimToken) jimLoggedIn)
              {| data := Some jim; bid := Some 2%positive |} jim)
    as (secret & setupToken & E & -> & -> & _).
  - vm_compute. reflexivity.
  - reflexivity.
  - reflexivity.
  - rewrite E. reflexivity.
Defined.

Lemma check_window_witness :
  authenticator_check 95000 (hotp "IFTXE3SPOEYVURT2" 2) "IFTXE3SPOEYVURT2" = true
  ∧ authenticator_check 95000 (hotp "IFTXE3SPOEYVURT2" 4) "IFTXE3SPOEYVURT2" = true
  ∧ authenticator_check 95000 (hotp "IFTXE3SPOEYVURT2" 5) "IFTXE3SPOEYVURT2" = false.
Proof.
  pose proof (check_window 95000) as Hw. split_and!.
  - apply (proj1 (Hw _ "IFTXE3SPOEYVURT2")). left. reflexivity.
  - apply (proj1 (Hw _ "IFTXE3SPOEYVURT2")). right. right. reflexivity.
  - apply (proj2 (proj2 (Hw _ "IFTXE3SPOEYVURT2")) 2); [vm_compute; discriminate | reflexivity |].
    intros d Hd. assert (d = -1 ∨ d = 0 ∨ d = 1) as [-> | [-> | ->]] by lia;
      vm_compute; discriminate.
Defined.

Lemma servePublicFiles_confined_witness :
  PublicFiles.servePublicFiles posixCwd cutOffPoisonNullByte "legal.md"
    = SendFile "/juice-shop/ftp/legal.md"
  ∧ PublicFiles.servePublicFiles posixCwd cutOffPoisonNullByte "..%00.md"
    = Next 403 "File path traversal attempt detected!"
  ∧ PublicFiles.servePublicFiles posixCwd cutOffPoisonNullByte "a/b.md"
    = Next 403 "File names cannot contain forward or backward slashes!".
Proof.
  split_and!.
  - vm_compute. reflexivity.
  - apply (proj1 (proj2 (proj2
             (servePublicFiles_confined posixCwd cutOffPoisonNullByte "..%00.md"))));
      try reflexivity; [discriminate | left; reflexivity].
  - apply (proj1 (servePublicFiles_confined posixCwd cutOffPoisonNullByte "a/b.md")).
    left. reflexivity.
Defined.

(** C4, where the code departs from the claim.  Six requests with a
    wrong password for one key arrive at times 1000 to 1005, each before
    any of them has got past the [await] of line 51.  Each passes the
    guard of lines 38-46, for the tracker has no entry yet, and each then
    counts its failure in lines 79-84.  The state the program reaches
    holds an entry with count 6, above the limit of 5, while its window
    is running. *)
Theorem lockout_bound_broken :
  ∃ w a,
    reachable [] w
    ∧ failedLoginAttempts w !! wurstbrotKey = Some a
    ∧ FAILED_ATTEMPTS_LIMIT < count a
    ∧ isLocked 1005 wurstbrotKey (failedLoginAttempts w).
Proof.
  set (r := credentials "wurstbrot@juice-sh.op" "guess").
  assert (G : ∀ t pending, reachable pending shop → reachable (pending ++ [(t, r)]) shop).
  { intros t pending Hp. apply (reach_guard_pass t r pending shop shop Hp). reflexivity. }
  assert (A : ∀ t pending w, reachable ((t, r) :: pending) w →
                             reachable pending (snd (handle (loginAttempt t r) w))).
  { intros t pending w Hp. apply (reach_attempt t r [] pending). exact Hp. }
  eexists _, {| count := 6; lastAttempt := 1005 |}. split.
  { apply (A 1005), (A 1004), (A 1003), (A 1002), (A 1001), (A 1000).
    apply (G 1005 [(1000, r); (1001, r); (1002, r); (1003, r); (1004, r)]).
    apply (G 1004 [(1000, r); (1001, r); (1002, r); (1003, r)]).
    apply (G 1003 [(1000, r); (1001, r); (1002, r)]).
    apply (G 1002 [(1000, r); (1001, r)]).
    apply (G 1001 [(1000, r)]).
    apply (G 1000 []).
    apply reach_start. reflexivity. }
  assert (E : failedLoginAttempts
                (snd (handle (loginAttempt 1005 r)
                (snd (handle (loginAttempt 1004 r)
                (snd (handle (loginAttempt 1003 r)
                (snd (handle (loginAttempt 1002 r)
                (snd (handle (loginAttempt 1001 r)
                (snd (handle (loginAttempt 1000 r) shop))))))))))))
                !! wurstbrotKey
              = Some {| count := 6; lastAttempt := 1005 |}) by (vm_compute; reflexivity).
  split; [exact E|]. split.
  - unfold FAILED_ATTEMPTS_LIMIT. simpl. lia.
  - exists {| count := 6; lastAttempt := 1005 |}. split; [exact E|].
    unfold FAILED_ATTEMPTS_LIMIT, LOCK_TIME_MS. simpl. lia.
Qed.

(** X1.  Six wrong passwords that arrive together all pass the guard, and
    their [try] blocks then count six failures for the key, one more
    than the limit, within six milliseconds. *)
Lemma logins_together_exceed_limit :
  fst (guardsOf sixGuesses shop) = [None; None; None; None; None; None]
  ∧ failedLoginAttempts (snd (attemptsOf sixGuesses (snd (guardsOf sixGuesses shop))))
      !! wurstbrotKey
    = Some {| count := 6; lastAttempt := 1005 |}
  ∧ FAILED_ATTEMPTS_LIMIT < 6.
Proof. split_and!; vm_compute; reflexivity. Qed.

End Scenarios.

(** ** Further properties of the login and second-factor routes *)

Section FurtherProperties.
Context `{Primitives}.

Ltac run :=
  unfold found, handle, catch, mbind, M_bind, mret, M_ret, gets, modify, throw,
    security_hashPassword, security_hash, security_constantTimeCompare,
    UserModel_findOne, UserModel_findByPk, UserModel_save,
    authenticatedUsers_put, authenticatedUsers_from, authenticatedUsers_updateFrom,
    authenticator_check_opt, authenticator_generateSecret,
    queryResultToJson, set_UserModel, set_BasketModel, set_authenticatedUsers,
    set_failedLoginAttempts, set_entropy, set_comparatorCalls in *; simpl in *.

Ltac branches :=
  repeat (simpl in *;
          match goal with
          | |- context [match ?x with _ => _ end] =>
              lazymatch x with
              | context [match _ with _ => _ end] => fail
              | _ => destruct x eqn:?
              end
          end);
  simpl in *.

Lemma verify_accepts now req w userId user code :
  pendingFor now req userId →
  recordById userId w = Some user →
  body_totpToken req = Some code →
  authenticator_check now code (user_totpSecret user) = true →
  verify now req w
  = let token := security_authorize now (payloadOfUser (queryResultToJson (Some user))) in
    match BasketModel_findOrCreate userId w with
    | (Ok basket, w2) =>
        (Send 200 (Authentication token (basket_id basket) (user_email user)),
         set_authenticatedUsers
           (insert token {| data := Some user; bid := Some (basket_id basket) |}) w2)
    | (Throw e, w2) => (unauthenticated, w2)
    end.
Proof.
  intros (Hv & Hty & Hid) Hrec Hcode Hcheck.
  unfold verify, recordById, unauthenticated in *. run.
  rewrite Hv, Hty, Hid. simpl. rewrite Hrec, Hcode. simpl. rewrite Hcheck. simpl.
  destruct (BasketModel_findOrCreate userId w) as [[b|e] w2]; reflexivity.
Qed.

Lemma verify_accepts_result now req w userId user code :
  pendingFor now req userId →
  recordById userId w = Some user →
  body_totpToken req = Some code →
  authenticator_check now code (user_totpSecret user) = true →
  ∃ basket w2,
    verify now req w
    = (Send 200 (Authentication
                   (security_authorize now (payloadOfUser (queryResultToJson (Some user))))
                   (basket_id basket) (user_email user)),
       set_authenticatedUsers
         (insert (security_authorize now (payloadOfUser (queryResultToJson (Some user))))
                 {| data := Some user; bid := Some (basket_id basket) |}) w2)
    ∧ basket_UserId basket = userId
    ∧ basketOf userId w2 = Some basket
    ∧ (basketOf userId w = Some basket ∧ w2 = w
       ∨ basketOf userId w = None ∧ w2 = set_BasketModel (λ l, l ++ [basket]) w).
Proof.
  intros Hp Hrec Hcode Hcheck.
  rewrite (verify_accepts _ _ _ _ _ _ Hp Hrec Hcode Hcheck). cbv zeta.
  destruct (findOrCreate_spec userId w) as (basket & Hu & [[Hb ->] | [Hb ->]]).
  - exists basket, w. split_and!; auto.
  - exists basket, (set_BasketModel (λ l, l ++ [basket]) w). split_and!; auto.
    apply basketOf_created; assumption.
Qed.

(** X2.  A second-factor completion with a pending token that verifies,
    has the needs-second-factor type and names a record, and with a code
    that validates against the secret of that record, answers 200 with a
    session token, the basket id and the email of the record, as a login
    without second factor does; it finds or creates the basket, registers
    the token with the snapshot of the record, which a lookup before the
    expiry of the token returns, and leaves the records and the tracker
    as they were. *)
Theorem verify_opens_session now req w userId user code :
  pendingFor now req userId →
  recordById userId w = Some user →
  body_totpToken req = Some code →
  authenticator_check now code (user_totpSecret user) = true →
  ∃ basket,
    let token := security_authorize now (payloadOfUser (queryResultToJson (Some user))) in
    let snapshot := {| data := Some user; bid := Some (basket_id basket) |} in
    fst (verify now req w)
      = Send 200 (Authentication token (basket_id basket) (user_email user))
    ∧ basket_UserId basket = userId
    ∧ basketOf userId (snd (verify now req w)) = Some basket
    ∧ (basketOf userId w = Some basket
         ∧ BasketModel (snd (verify now req w)) = BasketModel w
       ∨ basketOf userId w = None
         ∧ BasketModel (snd (verify now req w)) = BasketModel w ++ [basket])
    ∧ authenticatedUsers (snd (verify now req w))
      = <[token := snapshot]> (authenticatedUsers w)
    ∧ UserModel (snd (verify now req w)) = UserModel w
    ∧ failedLoginAttempts (snd (verify now req w)) = failedLoginAttempts w
    ∧ ∀ now' req',
        bearer req' = Some token → now' < now + expiresIn →
        fst (authenticatedUsers_from now' req' (snd (verify now req w)))
        = Ok (Some snapshot).
Proof.
  intros Hp Hrec Hcode Hcheck.
  destruct (verify_accepts_result _ _ _ _ _ _ Hp Hrec Hcode Hcheck)
    as (basket & w2 & -> & Hu & Hb2 & Hb).
  exists basket. cbn [fst snd]. split_and!.
  - reflexivity.
  - exact Hu.
  - exact Hb2.
  - destruct Hb as [[Hb ->] | [Hb ->]]; [left | right]; split; auto.
  - destruct Hb as [[_ ->] | [_ ->]]; reflexivity.
  - destruct Hb as [[_ ->] | [_ ->]]; reflexivity.
  - destruct Hb as [[_ ->] | [_ ->]]; reflexivity.
  - intros now' req' Hbear Hexp%Z.ltb_lt.
    unfold authenticatedUsers_from, gets, set_authenticatedUsers. simpl.
    rewrite Hbear. simpl. rewrite Hexp. f_equal. apply lookup_insert_eq.
Qed.

Lemma pendingFor_issued now now' req userId :
  body_tmpToken req = Some (security_authorize now (tmpTokenPayload userId)) →
  now' < now + expiresIn →
  pendingFor now' req userId.
Proof.
  intros E Hlt. unfold pendingFor, security_decode. rewrite E.
  rewrite (verify_authorize _ _ _ Hlt). auto.
Qed.

Lemma recordById_users pk w w' :
  UserModel w' = UserModel w → recordById pk w' = recordById pk w.
Proof.
  intros E. unfold recordById, found, UserModel_findByPk, gets. simpl.
  rewrite E. reflexivity.
Qed.

(** X3.  The two steps of a login with second factor compose: a login
    with the credentials of an enrolled record, under a key that is not
    locked, answers with a pending token, and a completion that submits
    this token before it expires, with a code that validates against the
    secret of the record, answers 200 with a session token for the email
    of the record and registers a session of that record.  The primary
    key of the record is taken to find the record. *)
Theorem second_factor_flow now now' req req' w record code :
  ¬ isLocked now (lockoutKey req) (failedLoginAttempts w) →
  credentialOf req w = Some record →
  user_totpSecret record ≠ "" →
  recordById (user_id record) w = Some record →
  body_tmpToken req'
    = Some (security_authorize now (tmpTokenPayload (user_id record))) →
  now' < now + expiresIn →
  body_totpToken req' = Some code →
  authenticator_check now' code (user_totpSecret record) = true →
  fst (login now req w)
    = Send 401 (TotpTokenRequired
                  (security_authorize now (tmpTokenPayload (user_id record))))
  ∧ ∃ basket,
      let token := security_authorize now'
                     (payloadOfUser (queryResultToJson (Some record))) in
      fst (verify now' req' (snd (login now req w)))
        = Send 200 (Authentication token (basket_id basket) (user_email record))
      ∧ authenticatedUsers (snd (verify now' req' (snd (login now req w)))) !! token
        = Some {| data := Some record; bid := Some (basket_id basket) |}.
Proof.
  intros Hl%lockedNow_false Hc Hs Hrec Htok Hlt Hcode Hcheck.
  rewrite (login_enrolled _ _ _ _ Hl Hc Hs). cbn [fst snd].
  split; [reflexivity|].
  set (w1 := set_failedLoginAttempts _ _).
  assert (Hrec1 : recordById (user_id record) w1 = Some record).
  { rewrite <- Hrec. apply recordById_users. reflexivity. }
  pose proof (pendingFor_issued _ _ _ _ Htok Hlt) as Hp.
  destruct (verify_accepts_result _ _ _ _ _ _ Hp Hrec1 Hcode Hcheck)
    as (b & w2 & -> & _).
  exists b. cbn [fst snd]. split; [reflexivity|].
  unfold set_authenticatedUsers. simpl. apply lookup_insert_eq.
Qed.

(** X4.  A completion consumes neither the pending token nor the code:
    when it has answered 200, the same request answers 200 again for as
    long as its token verifies and its code validates. *)
Theorem completion_repeats now now' req w userId user code :
  pendingFor now req userId →
  recordById userId w = Some user →
  body_totpToken req = Some code →
  authenticator_check now code (user_totpSecret user) = true →
  pendingFor now' req userId →
  authenticator_check now' code (user_totpSecret user) = true →
  (∃ token b, fst (verify now req w) = Send 200 (Authentication token b (user_email user)))
  ∧ ∃ token b, fst (verify now' req (snd (verify now req w)))
               = Send 200 (Authentication token b (user_email user)).
Proof.
  intros Hp Hrec Hcode Hcheck Hp' Hcheck'.
  destruct (verify_accepts_result _ _ _ _ _ _ Hp Hrec Hcode Hcheck)
    as (b & w2 & E & _ & _ & Hw2).
  rewrite E. cbn [fst snd]. split; [eauto|].
  set (w1 := set_authenticatedUsers _ w2).
  assert (Hrec1 : recordById userId w1 = Some user).
  { rewrite <- Hrec. apply recordById_users.
    destruct Hw2 as [[_ ->] | [_ ->]]; reflexivity. }
  destruct (verify_accepts_result _ _ _ _ _ _ Hp' Hrec1 Hcode Hcheck')
    as (b' & w3 & -> & _).
  cbn [fst]. eauto.
Qed.

(** *** [disable] *)

Lemma disable_success now req w user record :
  disableChecks now req w user record →
  ∃ t password,
    bearer req = Some t ∧ body_password req = Some password
    ∧ disable now req w
      = (Send 200 Empty,
         set_authenticatedUsers
           (alter (λ _, queryResultToJson (Some (withSecret record ""))) t)
           (set_UserModel
              (map (λ v, if Pos.eqb (user_id v) (user_id record)
                         then withSecret record "" else v))
              (set_comparatorCalls (cons (Hash password)) w))).
Proof.
  intros ((session & Hs & Hd) & (password & Hp & Hpw) & Hrec).
  destruct (sessionOf_bearer _ _ _ _ Hs) as (t & Hb & _).
  exists t, password. split_and!; [assumption | assumption |].
  unfold disable, handle, catch, mbind, M_bind.
  rewrite from_sessionOf, Hs, Hd, Hp. cbn [security_hash].
  rewrite Hpw, String.eqb_refl. cbn [negb].
  unfold UserModel_findByPk, gets.
  unfold recordById, found, UserModel_findByPk, gets in Hrec. cbn [fst] in Hrec.
  unfold set_comparatorCalls at 1. cbn [UserModel]. rewrite Hrec.
  unfold authenticatedUsers_updateFrom. rewrite Hb. reflexivity.
Qed.

Lemma disable_cases now req w :
  (∃ user record, disableChecks now req w user record)
  ∨ fst (disable now req w) = unauthenticated.
Proof.
  unfold disable, unauthenticated, disableChecks, sessionOf, recordById. run.
  branches; try (right; reflexivity); left.
  all: repeat match goal with
       | E : negb _ = false |- _ => apply negb_false_iff in E
       | E : String.eqb _ _ = true |- _ => apply String.eqb_eq in E
       end.
  all: eexists _, _; split_and!; eauto.
Qed.

(** X5.  [disable] answers 200 exactly when a session resolves, the
    hash of the submitted password equals the stored one and the record
    of the identity is found by its id, whether the identity has a TOTP
    secret or not; otherwise it answers 401.  When it answers 200 the
    record has been saved with the empty secret, the snapshot of the
    session is the saved record, and baskets and tracker are as they
    were. *)
Theorem disable_clears now req w :
  (fst (disable now req w) = Send 200 Empty
   ↔ ∃ user record, disableChecks now req w user record)
  ∧ (fst (disable now req w) = Send 200 Empty
     ∨ fst (disable now req w) = unauthenticated)
  ∧ BasketModel (snd (disable now req w)) = BasketModel w
  ∧ failedLoginAttempts (snd (disable now req w)) = failedLoginAttempts w
  ∧ ∀ user record,
      disableChecks now req w user record →
      recordById (user_id user) (snd (disable now req w)) = Some (withSecret record "")
      ∧ ∃ t, bearer req = Some t
             ∧ authenticatedUsers (snd (disable now req w)) !! t
               = Some (queryResultToJson (Some (withSecret record ""))).
Proof.
  assert (Hafter : ∀ user record,
            disableChecks now req w user record →
            fst (disable now req w) = Send 200 Empty
            ∧ recordById (user_id user) (snd (disable now req w))
              = Some (withSecret record "")
            ∧ ∃ t, bearer req = Some t
                   ∧ authenticatedUsers (snd (disable now req w)) !! t
                     = Some (queryResultToJson (Some (withSecret record "")))).
  { intros user record Hc.
    destruct (disable_success _ _ _ _ _ Hc) as (t & password & Hb & Hp & ->).
    destruct Hc as ((session & Hs & Hd) & _ & Hrec).
    destruct (sessionOf_bearer _ _ _ _ Hs) as (t' & Hb' & Hl & _).
    assert (t' = t) as -> by congruence.
    cbn [fst snd]. split_and!.
    - reflexivity.
    - unfold recordById, found, UserModel_findByPk, gets,
        set_authenticatedUsers, set_UserModel; simpl.
      rewrite (recordById_id _ _ _ Hrec).
      apply (find_saved _ _ record); [exact Hrec|].
      simpl. apply (recordById_id _ _ _ Hrec).
    - exists t. split; [exact Hb|].
      unfold set_authenticatedUsers; simpl. rewrite lookup_alter_eq, Hl. reflexivity. }
  split_and!.
  - split.
    + intros E. destruct (disable_cases now req w) as [Hc | E']; [exact Hc|].
      rewrite E' in E. discriminate.
    + intros (user & record & Hc). apply (Hafter _ _ Hc).
  - destruct (disable_cases now req w) as [(user & record & Hc) | E'];
      [left; apply (Hafter _ _ Hc) | right; exact E'].
  - unfold disable. run. branches; reflexivity.
  - apply disable_tracker.
  - intros user record Hc. destruct (Hafter _ _ Hc) as (_ & Hr & Ht). auto.
Qed.

(** *** Enrollment through several sessions *)

Lemma setup_result now req w user record secret :
  setupChecks now req w user record secret →
  ∃ t, bearer req = Some t
       ∧ fst (setup now req w) = Send 200 Empty
       ∧ recordById (user_id user) (snd (setup now req w))
         = Some (withSecret record secret)
       ∧ authenticatedUsers (snd (setup now req w))
         = alter (λ _, queryResultToJson (Some (withSecret record secret))) t
             (authenticatedUsers w)
       ∧ authenticatedUsers w !! t ≠ None
       ∧ entropy (snd (setup now req w)) = entropy w.
Proof.
  intros Hc.
  destruct (setup_success _ _ _ _ _ _ Hc) as (t & password & Hb & Hp & ->).
  destruct Hc as ((session & Hs & Hd) & _ & _ & _ & _ & Hrec).
  destruct (sessionOf_bearer _ _ _ _ Hs) as (t' & Hb' & Hl & _).
  assert (t' = t) as -> by congruence.
  exists t. cbn [fst snd]. split_and!; try reflexivity; try assumption.
  - unfold recordById, found, UserModel_findByPk, gets,
      set_authenticatedUsers, set_UserModel; simpl.
    rewrite (recordById_id _ _ _ Hrec).
    apply (find_saved _ _ record); [exact Hrec|].
    simpl. apply (recordById_id _ _ _ Hrec).
  - rewrite Hl. discriminate.
Qed.

Lemma sessionOf_other now req w w' t snapshot :
  authenticatedUsers w' = alter (λ _, snapshot) t (authenticatedUsers w) →
  bearer req ≠ Some t →
  sessionOf now req w' = sessionOf now req w.
Proof.
  intros E Hne. unfold sessionOf, found, authenticatedUsers_from, gets. simpl.
  destruct (bearer req) as [t'|]; [|reflexivity].
  destruct (now <? tok_exp t'); [|reflexivity].
  rewrite E. apply lookup_alter_ne. congruence.
Qed.

(** X6.  The check that no secret is set yet reads the snapshot of the
    session, not the record: when two sessions of one identity hold a
    snapshot without secret and the identity enrolls through the first,
    an enrollment through the second, with a valid setup token of its
    own, answers 200 as well and replaces the secret of the record. *)
Theorem setup_through_second_session now now' req req' w user user' record secret secret' :
  setupChecks now req w user record secret →
  setupChecks now' req' w user' record secret' →
  bearer req' ≠ bearer req →
  user_id user' = user_id user →
  fst (setup now req w) = Send 200 Empty
  ∧ recordById (user_id user) (snd (setup now req w)) = Some (withSecret record secret)
  ∧ fst (setup now' req' (snd (setup now req w))) = Send 200 Empty
  ∧ recordById (user_id user) (snd (setup now' req' (snd (setup now req w))))
    = Some (withSecret record secret').
Proof.
  intros Hc Hc' Hne Hid.
  destruct (setup_result _ _ _ _ _ _ Hc) as (t & Hb & Hr & Hrec1 & Hau & _).
  split; [exact Hr|]. split; [exact Hrec1|].
  assert (Hc1 : setupChecks now' req' (snd (setup now req w)) user'
                  (withSecret record secret) secret').
  { destruct Hc' as (Hs' & Hp' & Ht' & (Hv' & Hty' & Hsec') & Hcode' & Hrec').
    split_and!; try assumption.
    - destruct Hs' as (session & Hs' & Hd'). exists session. split; [|exact Hd'].
      rewrite <- Hs'.
      apply (sessionOf_other _ _ _ _ t _ Hau). congruence.
    - rewrite Hid. exact Hrec1. }
  destruct (setup_result _ _ _ _ _ _ Hc1) as (t' & _ & Hr' & Hrec2 & _).
  split; [exact Hr'|]. rewrite <- Hid. exact Hrec2.
Qed.

(** *** [status] with [setup] and [disable] *)

Lemma check_current now secret :
  authenticator_check now (hotp secret (authenticator_counter now)) secret = true.
Proof.
  unfold authenticator_check, authenticator_epochs. cbn [existsb].
  rewrite String.eqb_refl. reflexivity.
Qed.

Lemma status_offers now req w session user :
  sessionOf now req w = Some session → data session = Some user →
  user_totpSecret user = "" →
  status now req w
  = (Send 200 (SetupData (secretOf (entropy w)) (user_email user)
                 (security_authorize now (setupTokenPayload (secretOf (entropy w))))),
     set_entropy S w).
Proof.
  intros Hs Hd Ht. unfold status, handle, catch, mbind, M_bind.
  rewrite from_sessionOf, Hs, Hd, Ht. reflexivity.
Qed.

Lemma status_enrolled now req w session user :
  sessionOf now req w = Some session → data session = Some user →
  user_totpSecret user ≠ "" →
  status now req w = (Send 200 SetupDone, w).
Proof.
  intros Hs Hd Ht%String.eqb_neq. unfold status, handle, catch, mbind, M_bind.
  rewrite from_sessionOf, Hs, Hd, Ht. reflexivity.
Qed.

(** X7.  What [status] hands out is what [setup] accepts: for a session
    whose identity has no secret and whose record is found, a [setup]
    that submits the right password, the setup token that [status]
    returned, before it expires, and the current code of the returned
    secret answers 200 and saves that secret in the record. *)
Theorem status_then_setup now now' req req' w session user record password :
  sessionOf now req w = Some session →
  sessionOf now' req' w = Some session →
  data session = Some user →
  user_totpSecret user = "" →
  recordById (user_id user) w = Some record →
  body_password req' = Some password →
  user_password user = digest password →
  now' < now + expiresIn →
  body_setupToken req'
    = Some (security_authorize now (setupTokenPayload (secretOf (entropy w)))) →
  body_initialToken req'
    = Some (hotp (secretOf (entropy w)) (authenticator_counter now')) →
  fst (status now req w)
    = Send 200 (SetupData (secretOf (entropy w)) (user_email user)
                  (security_authorize now (setupTokenPayload (secretOf (entropy w)))))
  ∧ fst (setup now' req' (snd (status now req w))) = Send 200 Empty
  ∧ recordById (user_id user) (snd (setup now' req' (snd (status now req w))))
    = Some (withSecret record (secretOf (entropy w))).
Proof.
  intros Hs Hs' Hd Ht Hrec Hp Hpw Hlt Htok Hcode.
  rewrite (status_offers _ _ _ _ _ Hs Hd Ht). cbn [fst snd].
  split; [reflexivity|].
  assert (Hc : setupChecks now' req' (set_entropy S w) user record
                 (secretOf (entropy w))).
  { unfold setupChecks. split_and!.
    - exists session. split; [exact Hs' | exact Hd].
    - exists password. split; assumption.
    - exact Ht.
    - rewrite Htok. apply verify_authorize. exact Hlt.
    - rewrite Htok. unfold security_decode. rewrite (verify_authorize _ _ _ Hlt).
      reflexivity.
    - rewrite Htok. unfold security_decode. rewrite (verify_authorize _ _ _ Hlt).
      reflexivity.
    - eexists. split; [exact Hcode | apply check_current].
    - exact Hrec. }
  destruct (setup_result _ _ _ _ _ _ Hc) as (t & _ & Hr & Hrec' & _).
  split; assumption.
Qed.

Lemma sessionOf_replaced now req w' t snapshot :
  bearer req = Some t →
  authenticatedUsers w' !! t = Some snapshot →
  now < tok_exp t →
  sessionOf now req w' = Some snapshot.
Proof.
  intros Hb Hl Hlt%Z.ltb_lt. unfold sessionOf, found, authenticatedUsers_from, gets.
  simpl. rewrite Hb, Hlt. exact Hl.
Qed.

(** X8.  The session sees an enrollment and its end at once: on the
    session through which [setup] saved a secret that is not empty,
    [status] reports [setup: true] without any secret; on the session
    through which [disable] cleared the secret, [status] offers a new
    secret and setup token again.  The session token is taken not to
    have expired. *)
Theorem status_follows_enrollment now now' req req' w t :
  bearer req = Some t → bearer req' = Some t → now' < tok_exp t →
  (∀ user record secret,
     setupChecks now req w user record secret → secret ≠ "" →
     status now' req' (snd (setup now req w))
     = (Send 200 SetupDone, snd (setup now req w)))
  ∧ (∀ user record,
       disableChecks now req w user record →
       ∃ secret setupToken,
         fst (status now' req' (snd (disable now req w)))
         = Send 200 (SetupData secret (user_email record) setupToken)).
Proof.
  intros Hb Hb' Hlt. split.
  - intros user record secret Hc Hne.
    destruct (setup_success _ _ _ _ _ _ Hc) as (t1 & password & Hb1 & _ & E).
    assert (t1 = t) as -> by congruence.
    destruct Hc as ((session & Hs & _) & _).
    destruct (sessionOf_bearer _ _ _ _ Hs) as (t2 & Hb2 & Hl & _).
    assert (t2 = t) as -> by congruence.
    apply (status_enrolled _ _ _ (queryResultToJson (Some (withSecret record secret)))
             (withSecret record secret)); [| reflexivity | exact Hne].
    apply (sessionOf_replaced _ _ _ t); [exact Hb' | | exact Hlt].
    rewrite E. cbn [snd]. unfold set_authenticatedUsers. simpl.
    rewrite lookup_alter_eq, Hl. reflexivity.
  - intros user record Hc.
    destruct (disable_success _ _ _ _ _ Hc) as (t1 & password & Hb1 & _ & E).
    assert (t1 = t) as -> by congruence.
    destruct Hc as ((session & Hs & _) & _).
    destruct (sessionOf_bearer _ _ _ _ Hs) as (t2 & Hb2 & Hl & _).
    assert (t2 = t) as -> by congruence.
    eexists _, _.
    rewrite (status_offers _ _ _ (queryResultToJson (Some (withSecret record "")))
               (withSecret record "")); [reflexivity | | reflexivity | reflexivity].
    apply (sessionOf_replaced _ _ _ t); [exact Hb' | | exact Hlt].
    rewrite E. cbn [snd]. unfold set_authenticatedUsers. simpl.
    rewrite lookup_alter_eq, Hl. reflexivity.
Qed.

(** *** Login: frame and consecutive failures *)

Lemma login_frame_cases now req w :
  UserModel (snd (login now req w)) = UserModel w
  ∧ entropy (snd (login now req w)) = entropy w
  ∧ (∀ k, k ≠ lockoutKey req →
          failedLoginAttempts (snd (login now req w)) !! k = failedLoginAttempts w !! k)
  ∧ (isAuthentication (fst (login now req w))
     ∨ authenticatedUsers (snd (login now req w)) = authenticatedUsers w
       ∧ BasketModel (snd (login now req w)) = BasketModel w).
Proof.
  destruct (lockedNow now (lockoutKey req) (failedLoginAttempts w)) eqn:Hl.
  { rewrite (login_locked _ _ _ Hl). cbn [fst snd]. split_and!; auto. }
  assert (Hpast : ∀ k, k ≠ lockoutKey req →
            pastGuard (lockoutKey req) (failedLoginAttempts w) !! k
            = failedLoginAttempts w !! k).
  { intros k Hk. unfold pastGuard.
    destruct (failedLoginAttempts w !! lockoutKey req) as [a|]; [|reflexivity].
    destruct (FAILED_ATTEMPTS_LIMIT <=? count a); [|reflexivity].
    apply lookup_delete_ne. congruence. }
  destruct (credentialOf req w) as [record|] eqn:Hc.
  - destruct (String.eqb_spec (user_totpSecret record) "") as [Hs|Hs].
    + rewrite (login_plain _ _ _ _ Hl Hc Hs). cbv zeta.
      destruct (findOrCreate_spec (user_id record)
                  (set_failedLoginAttempts (delete (lockoutKey req)) (hashed req w)))
        as (b & _ & [[_ ->] | [_ ->]]); cbn [fst snd]; split_and!;
        try reflexivity; try (left; eexists _, _, _, _; reflexivity).
      all: intros k Hk; unfold set_authenticatedUsers, set_BasketModel,
             set_failedLoginAttempts, hashed, set_comparatorCalls; simpl;
           rewrite lookup_delete_ne by congruence; apply Hpast, Hk.
    + rewrite (login_enrolled _ _ _ _ Hl Hc Hs). cbn [fst snd]. split_and!; auto.
      intros k Hk. unfold set_failedLoginAttempts, hashed, set_comparatorCalls. simpl.
      rewrite lookup_delete_ne by congruence. apply Hpast, Hk.
  - rewrite (login_mismatch _ _ _ Hl Hc). cbn [fst snd]. split_and!; auto.
    intros k Hk. unfold set_failedLoginAttempts, hashed, set_comparatorCalls. simpl.
    rewrite lookup_insert_ne by congruence. apply Hpast, Hk.
Qed.

(** X9.  A login writes the tracker under its own key only: the entries
    of all other keys, the records and the random generator are as they
    were, and unless it answers with a session token the registry and
    the baskets are as they were too. *)
Theorem login_touches_only_its_key now req w :
  UserModel (snd (login now req w)) = UserModel w
  ∧ entropy (snd (login now req w)) = entropy w
  ∧ (∀ k, k ≠ lockoutKey req →
          failedLoginAttempts (snd (login now req w)) !! k = failedLoginAttempts w !! k)
  ∧ (¬ isAuthentication (fst (login now req w)) →
     authenticatedUsers (snd (login now req w)) = authenticatedUsers w
     ∧ BasketModel (snd (login now req w)) = BasketModel w).
Proof.
  destruct (login_frame_cases now req w) as (Hu & He & Hk & Ha).
  split_and!; try assumption. intros Hn. destruct Ha as [Ha | Ha]; [tauto | exact Ha].
Qed.

Lemma credentialOf_users req w w' :
  UserModel w' = UserModel w → credentialOf req w' = credentialOf req w.
Proof.
  intros E. unfold credentialOf, found, UserModel_findOne, gets. simpl.
  rewrite E. reflexivity.
Qed.

Lemma loginsAt_snoc times t req w :
  loginsAt (times ++ [t]) req w = snd (login t req (loginsAt times req w)).
Proof. unfold loginsAt. rewrite fold_left_app. reflexivity. Qed.

Lemma loginsAt_failures times req w :
  credentialOf req w = None →
  failedLoginAttempts w !! lockoutKey req = None →
  (length times ≤ 5)%nat →
  credentialOf req (loginsAt times req w) = None
  ∧ failedLoginAttempts (loginsAt times req w) !! lockoutKey req
    = match times with
      | [] => None
      | _ => Some {| count := Z.of_nat (length times); lastAttempt := List.last times 0 |}
      end.
Proof.
  intros Hc Hf. induction times as [|t times IH] using rev_ind; intros Hlen.
  { split; assumption. }
  rewrite length_app in Hlen. simpl in Hlen.
  destruct IH as [Hc' Hf']; [lia|].
  rewrite loginsAt_snoc. set (w' := loginsAt times req w) in *.
  assert (Hl : lockedNow t (lockoutKey req) (failedLoginAttempts w') = false).
  { unfold lockedNow. rewrite Hf'. destruct times; [reflexivity|].
    cbn [count]. apply andb_false_iff. left. apply Z.leb_gt.
    unfold FAILED_ATTEMPTS_LIMIT. lia. }
  rewrite (login_mismatch _ _ _ Hl Hc'). cbn [snd]. split.
  - rewrite <- Hc'. apply credentialOf_users. reflexivity.
  - unfold set_failedLoginAttempts. simpl. rewrite lookup_insert_eq.
    unfold failuresSoFar. rewrite Hf'. rewrite last_last, length_app. simpl.
    destruct (times ++ [t]) eqn:E; [destruct times; discriminate|].
    f_equal. destruct times as [|t0 times].
    + reflexivity.
    + cbn [count]. destruct (Z.leb_spec FAILED_ATTEMPTS_LIMIT
                               (Z.of_nat (length (t0 :: times)))) as [Hle|_].
      * unfold FAILED_ATTEMPTS_LIMIT in Hle. lia.
      * f_equal. lia.
Qed.

(** X10.  Failures add up: starting without an entry for the key, up to
    five logins in a row that match no record leave an entry that counts
    them and is stamped with the time of the last.  After the fifth,
    every login under that key within 15 minutes of it is answered 429
    and changes nothing, whatever password it submits. *)
Theorem consecutive_failures_lock times req w :
  credentialOf req w = None →
  failedLoginAttempts w !! lockoutKey req = None →
  times ≠ [] →
  (length times ≤ 5)%nat →
  failedLoginAttempts (loginsAt times req w) !! lockoutKey req
    = Some {| count := Z.of_nat (length times); lastAttempt := List.last times 0 |}
  ∧ (length times = 5%nat →
     ∀ now req',
       lockoutKey req' = lockoutKey req →
       now - List.last times 0 < LOCK_TIME_MS →
       login now req' (loginsAt times req w) = (tooManyAttempts, loginsAt times req w)).
Proof.
  intros Hc Hf Hne Hlen.
  destruct (loginsAt_failures times req w Hc Hf Hlen) as [_ E].
  destruct times as [|t0 times]; [congruence|].
  split; [exact E|].
  intros H5 now req' Hk Hage. apply login_locked.
  unfold lockedNow. rewrite Hk, E. cbn [count lastAttempt].
  apply andb_true_iff. split; [apply Z.leb_le | apply Z.ltb_lt; exact Hage].
  unfold FAILED_ATTEMPTS_LIMIT. lia.
Qed.

(** X17.  The key of the tracker joins email and origin with a colon
    and does not tell where one ends: a request with email [e] from
    origin [a:b] and a request with email [e:a] from origin [b] have the
    same key, so that five failures of the one lock the other out. *)
Theorem lockout_key_shared times req req' e a b w :
  body_email req = Some e → ip req = a +:+ ":" +:+ b →
  body_email req' = Some (e +:+ ":" +:+ a) → ip req' = b →
  lockoutKey req' = lockoutKey req
  ∧ (credentialOf req w = None →
     failedLoginAttempts w !! lockoutKey req = None →
     length times = 5%nat →
     ∀ now, now - List.last times 0 < LOCK_TIME_MS →
            fst (login now req' (loginsAt times req w)) = tooManyAttempts).
Proof.
  intros He Hi He' Hi'.
  assert (Hk : lockoutKey req' = lockoutKey req).
  { unfold lockoutKey. rewrite He, Hi, He', Hi'. cbn [default from_option id].
    rewrite !append_assoc. reflexivity. }
  split; [exact Hk|].
  intros Hc Hf Hlen now Hage.
  destruct (loginsAt_failures times req w Hc Hf) as [_ E]; [lia|].
  destruct times as [|t0 times]; [discriminate|].
  rewrite login_locked; [reflexivity|].
  unfold lockedNow. rewrite Hk, E. cbn [count lastAttempt].
  apply andb_true_iff. split; [apply Z.leb_le | apply Z.ltb_lt; exact Hage].
  unfold FAILED_ATTEMPTS_LIMIT. lia.
Qed.

Lemma loginsOf_locked requests w key a :
  failedLoginAttempts w !! key = Some a →
  FAILED_ATTEMPTS_LIMIT ≤ count a →
  Forall (λ r, lockoutKey (snd r) = key ∧ fst r - lastAttempt a < LOCK_TIME_MS)
         requests →
  loginsOf requests w = w.
Proof.
  intros E Hc Hall. unfold loginsOf.
  induction Hall as [|r requests [Hk Hage] _ IH]; [reflexivity|].
  cbn [fold_left]. rewrite login_locked; [exact IH|].
  unfold lockedNow. rewrite Hk, E.
  apply andb_true_iff. split; [apply Z.leb_le, Hc | apply Z.ltb_lt, Hage].
Qed.

(** X20.  Attempts during a lockout do not prolong it: whatever logins
    arrive under a locked key while its window runs, the state is as it
    was, and the first login under the key that comes 15 minutes or more
    after the failure that locked it is not answered 429. *)
Theorem lockout_not_prolonged requests now req w a :
  failedLoginAttempts w !! lockoutKey req = Some a →
  FAILED_ATTEMPTS_LIMIT ≤ count a →
  Forall (λ r, lockoutKey (snd r) = lockoutKey req
               ∧ fst r - lastAttempt a < LOCK_TIME_MS) requests →
  LOCK_TIME_MS ≤ now - lastAttempt a →
  loginsOf requests w = w
  ∧ ∃ status body, fst (login now req (loginsOf requests w)) = Send status body
                   ∧ status ≠ 429.
Proof.
  intros E Hc Hall Hage.
  rewrite (loginsOf_locked _ _ _ _ E Hc Hall). split; [reflexivity|].
  apply login_answers. unfold lockedNow. rewrite E.
  apply andb_false_iff. right. apply Z.ltb_ge. exact Hage.
Qed.

Lemma findOrCreate_users UserId w r w' :
  BasketModel_findOrCreate UserId w = (r, w') → UserModel w' = UserModel w.
Proof.
  unfold BasketModel_findOrCreate. destruct (find _ _); intros [= <- <-]; reflexivity.
Qed.

(** X19.  What the second-factor routes leave alone: none of [verify],
    [status], [setup] and [disable] writes the tracker; [status] writes
    nothing but the state of the random generator; [setup] and
    [disable] write no basket; [verify] writes no record. *)
Theorem second_factor_frame now req w :
  failedLoginAttempts (snd (verify now req w)) = failedLoginAttempts w
  ∧ failedLoginAttempts (snd (status now req w)) = failedLoginAttempts w
  ∧ failedLoginAttempts (snd (setup now req w)) = failedLoginAttempts w
  ∧ failedLoginAttempts (snd (disable now req w)) = failedLoginAttempts w
  ∧ (snd (status now req w) = w ∨ snd (status now req w) = set_entropy S w)
  ∧ BasketModel (snd (setup now req w)) = BasketModel w
  ∧ BasketModel (snd (disable now req w)) = BasketModel w
  ∧ UserModel (snd (verify now req w)) = UserModel w.
Proof.
  split_and!.
  - apply verify_tracker.
  - apply status_tracker.
  - apply setup_tracker.
  - apply disable_tracker.
  - unfold status. run. branches; auto.
  - unfold setup. run. branches; reflexivity.
  - unfold disable. run. branches; reflexivity.
  - destruct (verify_cases now req w) as [-> | [(st & t & b & m & E) _]];
      [reflexivity|].
    revert E. unfold verify. run. branches; try discriminate; intros _.
    all: match goal with
         | E : BasketModel_findOrCreate _ _ = _ |- _ =>
             apply findOrCreate_users in E; exact E
         end.
Qed.

End FurtherProperties.

(** ** Further properties of the public-file route *)

Section FurtherFileProperties.
Import PublicFiles.

Lemma replace_slash_free file :
  includes "/" file = false → includes "\" file = false →
  replaceDangerousFragments file = file.
Proof.
  induction file as [|c rest IH]; [reflexivity|].
  cbn [includes]. intros [Hc Hr]%orb_false_iff [Hc' Hr']%orb_false_iff.
  assert (Hs : isSlash c = false).
  { unfold isSlash. rewrite Hc, Hc'. reflexivity. }
  cbn [replaceDangerousFragments]. rewrite Hs, (IH Hr Hr').
  destruct rest as [|d [|e rest']]; try reflexivity.
  assert (He : isSlash e = false).
  { cbn [includes] in Hr, Hr'. unfold isSlash.
    apply orb_false_iff in Hr as [_ [-> _]%orb_false_iff].
    apply orb_false_iff in Hr' as [_ [-> _]%orb_false_iff]. reflexivity. }
  rewrite He, andb_false_r. reflexivity.
Qed.

(** X12.  Removing the dangerous fragments leaves a name without slashes
    as it is, and removing them twice is removing them once. *)
Theorem replaceDangerousFragments_idempotent file :
  (includes "/" file = false → includes "\" file = false →
   replaceDangerousFragments file = file)
  ∧ replaceDangerousFragments (replaceDangerousFragments file)
    = replaceDangerousFragments file.
Proof.
  split; [apply replace_slash_free|].
  apply replace_slash_free; apply replace_no_slash.
Qed.

(** *** Where a name resolves to *)

Lemma segments_noslash_app s rest current :
  includes "/" s = false →
  segments (s +:+ rest) current = segments rest (current +:+ s).
Proof.
  revert current. induction s as [|c s IH]; intros current Hs.
  - rewrite append_nil, append_nil_r. reflexivity.
  - cbn [includes] in Hs. apply orb_false_iff in Hs as [Hc Hs].
    rewrite append_cons. cbn [segments]. rewrite Hc, (IH _ Hs).
    rewrite append_assoc. reflexivity.
Qed.

Lemma segments_join l rest current :
  Forall (λ s, includes "/" s = false) l →
  segments (joinSegments l +:+ "/" +:+ rest) current
  = current :: l ++ segments rest "".
Proof.
  intros Hl. revert current. induction Hl as [|s l Hs _ IH]; intros current.
  - reflexivity.
  - cbn [joinSegments]. rewrite !append_assoc.
    change ("/" +:+ s +:+ joinSegments l +:+ "/" +:+ rest)
      with (String "/" (s +:+ joinSegments l +:+ "/" +:+ rest)).
    cbn [segments Ascii.eqb Bool.eqb]. rewrite (segments_noslash_app _ _ _ Hs).
    rewrite append_nil, IH. reflexivity.
Qed.

Lemma segments_split a b current :
  ∃ before last,
    segments a current = before ++ [last]
    ∧ segments (a +:+ b) current = before ++ segments b last.
Proof.
  revert current. induction a as [|c a IH]; intros current.
  - exists [], current. split; reflexivity.
  - rewrite append_cons. cbn [segments]. destruct (Ascii.eqb c "/").
    + destruct (IH "") as (before & last & E1 & E2).
      exists (current :: before), last. rewrite E1, E2. split; reflexivity.
    + apply IH.
Qed.

Lemma keptSegment_tests s :
  keptSegment s →
  String.eqb s "" = false ∧ String.eqb s "." = false ∧ String.eqb s ".." = false.
Proof.
  intros ((Hne & _) & Hd & Hdd). split_and!; apply String.eqb_neq; assumption.
Qed.

Lemma normalize_kept l rest reached :
  Forall keptSegment l →
  normalizeSegments (l ++ rest) reached = normalizeSegments rest (rev l ++ reached).
Proof.
  intros Hl. revert reached. induction Hl as [|s l Hs _ IH]; intros reached.
  - reflexivity.
  - destruct (keptSegment_tests _ Hs) as (E1 & E2 & E3).
    cbn [app normalizeSegments]. rewrite E1, E2, E3. cbn [orb].
    rewrite IH. cbn [rev]. rewrite <- app_assoc. reflexivity.
Qed.

Lemma normalize_state todo reached :
  Forall (λ s, includes "/" s = false) todo →
  Forall keptSegment reached →
  ∃ reached', Forall keptSegment reached'
    ∧ ∀ rest, normalizeSegments (todo ++ rest) reached = normalizeSegments rest reached'.
Proof.
  intros Ht. revert reached. induction Ht as [|s todo Hs _ IH]; intros reached Hr.
  - exists reached. auto.
  - cbn [app normalizeSegments].
    destruct (String.eqb_spec s "") as [|Hne]; cbn [orb]; [apply IH, Hr|].
    destruct (String.eqb_spec s ".") as [|Hd]; [apply IH, Hr|].
    destruct (String.eqb_spec s "..") as [|Hdd].
    + apply IH. destruct Hr; [constructor | assumption].
    + apply IH. constructor; [|exact Hr]. repeat split; assumption.
Qed.

Lemma joinSegments_app l l' :
  joinSegments (l ++ l') = joinSegments l +:+ joinSegments l'.
Proof.
  induction l as [|s l IH]; [reflexivity|].
  cbn [app joinSegments]. rewrite IH, !append_assoc. reflexivity.
Qed.

Lemma length_append a b :
  String.length (a +:+ b) = (String.length a + String.length b)%nat.
Proof.
  induction a as [|c a IH]; [reflexivity|].
  rewrite append_cons. simpl. rewrite IH. reflexivity.
Qed.

Lemma prefix_length a b :
  String.prefix a b = true → (String.length a ≤ String.length b)%nat.
Proof.
  intros [rest ->]%prefix_rest. rewrite length_append. lia.
Qed.

Lemma prefix_append a b : String.prefix a (a +:+ b) = true.
Proof.
  induction a as [|c a IH]; [rewrite append_nil; destruct b; reflexivity|].
  rewrite append_cons. simpl. destruct (ascii_dec c c); [exact IH | congruence].
Qed.

(** The [ftp] directory: the segments of the working directory that
    normalisation keeps, then [ftp]. *)
Lemma ftp_directory cwd :
  ∃ l, Forall keptSegment l ∧ path_resolve cwd ["ftp/"] = joinSegments (l ++ ["ftp"]).
Proof.
  unfold path_resolve. cbn [rev app resolveFrom String.eqb isAbsolute Ascii.eqb Bool.eqb].
  destruct (segments_split cwd ("/" +:+ "ftp/" +:+ "/" +:+ "") "")
    as (before & last & E1 & E2).
  rewrite E2.
  assert (Hns : Forall (λ s, includes "/" s = false) (before ++ [last])).
  { rewrite <- E1. apply segments_no_slash. reflexivity. }
  change (segments ("/" +:+ "ftp/" +:+ "/" +:+ "") last)
    with ([last] ++ ["ftp"; ""; ""]).
  rewrite app_assoc.
  destruct (normalize_state _ [] Hns (List.Forall_nil _)) as (r & Hr & ->).
  cbn [normalizeSegments String.eqb Ascii.eqb Bool.eqb orb rev].
  exists (rev r). split; [apply Forall_rev, Hr|].
  destruct (rev r ++ ["ftp"]) eqn:E; [destruct (rev r); discriminate | reflexivity].
Qed.

Lemma resolve_under cwd l name :
  Forall keptSegment l → l ≠ [] →
  includes "/" name = false →
  normalizeSegments
    (segments (resolveFrom cwd (rev [joinSegments l; name]) "") "") []
  = normalizeSegments [name] (rev l).
Proof.
  intros Hl Hne Hname.
  assert (Hns : Forall (λ s, includes "/" s = false) l).
  { eapply Forall_impl; [exact Hl|]. intros s ((_ & Hs) & _). exact Hs. }
  assert (Habs : String.eqb (joinSegments l) "" = false
                 ∧ isAbsolute (joinSegments l) = true).
  { destruct l; [congruence|]. split; reflexivity. }
  destruct Habs as [Hb1 Hb2].
  assert (Hfinish : ∀ tail, normalizeSegments ("" :: l ++ tail) []
                            = normalizeSegments tail (rev l)).
  { intros tail. cbn [normalizeSegments String.eqb orb].
    rewrite (normalize_kept _ _ _ Hl), app_nil_r. reflexivity. }
  cbn [rev app resolveFrom].
  destruct (String.eqb_spec name "") as [->|Hn].
  - rewrite Hb1, Hb2. rewrite (segments_join _ _ _ Hns). cbn [segments].
    rewrite Hfinish. reflexivity.
  - assert (isAbsolute name = false) as ->.
    { destruct name as [|c name]; [reflexivity|]. cbn [includes] in Hname.
      apply orb_false_iff in Hname as [Hc _]. exact Hc. }
    rewrite Hb1, Hb2. rewrite (segments_join _ _ _ Hns).
    rewrite (segments_noslash_app _ _ _ Hname). rewrite append_nil.
    change (segments ("/" +:+ "") name) with [name; ""]. rewrite Hfinish.
    cbn [normalizeSegments String.eqb orb].
    destruct (String.eqb name "" || String.eqb name "."); [reflexivity|].
    destruct (String.eqb name ".."); reflexivity.
Qed.

Lemma prefix_longer a b :
  (String.length b < String.length a)%nat → String.prefix a b = false.
Proof.
  intros Hlt. destruct (String.prefix a b) eqn:E; [|reflexivity].
  apply prefix_length in E. lia.
Qed.

Lemma join_or_root (l : list string) :
  l ≠ [] →
  match l with [] => "/" | s :: l0 => joinSegments (s :: l0) end = joinSegments l.
Proof. destruct l; [congruence | reflexivity]. Qed.

Lemma resolve_in_ftp cwd name :
  includes "/" name = false →
  (name ≠ "" → name ≠ "." → name ≠ ".." →
   path_resolve cwd [path_resolve cwd ["ftp/"]; name]
   = path_resolve cwd ["ftp/"] +:+ "/" +:+ name)
  ∧ (name = "" ∨ name = "." ∨ name = ".." →
     String.prefix (path_resolve cwd ["ftp/"] +:+ sep)
       (path_resolve cwd [path_resolve cwd ["ftp/"]; name]) = false).
Proof.
  intros Hname. destruct (ftp_directory cwd) as (l & Hl & ->).
  assert (HL : Forall keptSegment (l ++ ["ftp"])).
  { apply Forall_app. split; [exact Hl|]. repeat constructor; discriminate. }
  assert (HLne : l ++ ["ftp"] ≠ []) by (destruct l; discriminate).
  unfold path_resolve.
  rewrite (resolve_under cwd _ name HL HLne Hname).
  rewrite rev_app_distr. cbn [rev app normalizeSegments].
  assert (Hlen : ∀ r, (String.length
                         (match r with [] => "/" | s :: l0 => joinSegments (s :: l0) end)
                       ≤ S (String.length (joinSegments r)))%nat).
  { intros [|x r]; simpl; lia. }
  assert (Hftp : String.length (joinSegments ["ftp"]) = 4%nat) by reflexivity.
  assert (Hsep : String.length sep = 1%nat) by reflexivity.
  split.
  - intros H1 H2 H3.
    apply String.eqb_neq in H1, H2, H3. rewrite H1, H2, H3. cbn [orb rev].
    rewrite rev_involutive.
    rewrite join_or_root by (destruct l; discriminate).
    rewrite joinSegments_app. cbn [joinSegments].
    rewrite append_nil_r. reflexivity.
  - rewrite (joinSegments_app l ["ftp"]).
    intros [-> | [-> | ->]]; cbn [String.eqb Ascii.eqb Bool.eqb orb andb rev tl];
      apply prefix_longer; rewrite ?rev_app_distr, ?rev_involutive; cbn [rev app].
    + rewrite (join_or_root _ HLne), joinSegments_app, !length_append. lia.
    + rewrite (join_or_root _ HLne), joinSegments_app, !length_append. lia.
    + pose proof (Hlen l). rewrite !length_append. lia.
Qed.

Lemma servePublicFiles_sends cwd cutOffPoisonNullByte file :
  includes "/" file = false → includes "\" file = false →
  file ≠ "" →
  endsWith file ".md" = true ∨ endsWith file ".pdf" = true
    ∨ file = "incident-support.kdbx" →
  (replaceDangerousFragments (cutOffPoisonNullByte file) = ""
   ∨ replaceDangerousFragments (cutOffPoisonNullByte file) = "."
   ∨ replaceDangerousFragments (cutOffPoisonNullByte file) = ".." →
   servePublicFiles cwd cutOffPoisonNullByte file
   = Next 403 "File path traversal attempt detected!")
  ∧ (replaceDangerousFragments (cutOffPoisonNullByte file) ≠ "" →
     replaceDangerousFragments (cutOffPoisonNullByte file) ≠ "." →
     replaceDangerousFragments (cutOffPoisonNullByte file) ≠ ".." →
     servePublicFiles cwd cutOffPoisonNullByte file
     = SendFile (path_resolve cwd ["ftp/"] +:+ "/"
                   +:+ replaceDangerousFragments (cutOffPoisonNullByte file))).
Proof.
  intros Hs Hb Hne Hallow.
  unfold servePublicFiles, verify. rewrite Hs, Hb. cbn [negb andb].
  apply String.eqb_neq in Hne. rewrite Hne. cbn [negb andb].
  assert (endsWithAllowlistedFileType file
          || String.eqb file "incident-support.kdbx" = true) as ->.
  { unfold endsWithAllowlistedFileType.
    destruct Hallow as [-> | [-> | ->]]; [reflexivity | apply orb_true_iff; left;
      apply orb_true_r | apply orb_true_r]. }
  destruct (resolve_in_ftp cwd (replaceDangerousFragments (cutOffPoisonNullByte file)))
    as [Hin Hout]; [apply replace_no_slash|].
  split.
  - intros Hname. rewrite (Hout Hname). reflexivity.
  - intros H1 H2 H3. rewrite (Hin H1 H2 H3).
    rewrite <- append_assoc. unfold sep. rewrite prefix_append. reflexivity.
Qed.

(** X11.  Which file the route serves: for a parameter without slash
    that passes the allow-list, the name is what
    [cutOffPoisonNullByte] and the removal of dangerous fragments leave
    of it.  When that name is empty, [.] or [..] the request is refused
    with status 403; otherwise the file sent is exactly the [ftp]
    directory, a separator and that name, although the allow-list was
    checked on the parameter and not on the name. *)
Theorem servePublicFiles_serves cwd cutOffPoisonNullByte file :
  includes "/" file = false → includes "\" file = false →
  file ≠ "" →
  endsWith file ".md" = true ∨ endsWith file ".pdf" = true
    ∨ file = "incident-support.kdbx" →
  (replaceDangerousFragments (cutOffPoisonNullByte file) = ""
   ∨ replaceDangerousFragments (cutOffPoisonNullByte file) = "."
   ∨ replaceDangerousFragments (cutOffPoisonNullByte file) = ".." →
   servePublicFiles cwd cutOffPoisonNullByte file
   = Next 403 "File path traversal attempt detected!")
  ∧ (replaceDangerousFragments (cutOffPoisonNullByte file) ≠ "" →
     replaceDangerousFragments (cutOffPoisonNullByte file) ≠ "." →
     replaceDangerousFragments (cutOffPoisonNullByte file) ≠ ".." →
     servePublicFiles cwd cutOffPoisonNullByte file
     = SendFile (path_resolve cwd ["ftp/"] +:+ "/"
                   +:+ replaceDangerousFragments (cutOffPoisonNullByte file))).
Proof. apply servePublicFiles_sends. Qed.

Lemma endsWith_length file suffix :
  endsWith file suffix = true → (String.length suffix ≤ String.length file)%nat.
Proof.
  unfold endsWith. intros [Hle _]%andb_true_iff. apply Nat.leb_le. exact Hle.
Qed.

(** X18.  Without a poison null byte the allow-list decides: when
    [cutOffPoisonNullByte] leaves a parameter without slash as it is, the
    route sends the file of that very name in the [ftp] directory if the
    parameter ends in [.md] or [.pdf] or is [incident-support.kdbx], and
    refuses with status 403 if it does not. *)
Theorem servePublicFiles_without_null_byte cwd cutOffPoisonNullByte file :
  cutOffPoisonNullByte file = file →
  includes "/" file = false → includes "\" file = false →
  (endsWith file ".md" = true ∨ endsWith file ".pdf" = true
     ∨ file = "incident-support.kdbx" →
   servePublicFiles cwd cutOffPoisonNullByte file
   = SendFile (path_resolve cwd ["ftp/"] +:+ "/" +:+ file))
  ∧ (endsWith file ".md" = false → endsWith file ".pdf" = false →
     file ≠ "incident-support.kdbx" →
     servePublicFiles cwd cutOffPoisonNullByte file
     = Next 403 "Only .md and .pdf files are allowed!").
Proof.
  intros Hcut Hs Hb. split.
  - intros Hallow.
    assert (Hlen : (3 ≤ String.length file)%nat).
    { destruct Hallow as [E | [E | ->]]; [| |simpl; lia];
        apply endsWith_length in E; simpl in E; lia. }
    assert (Hne : file ≠ "") by (intros ->; simpl in Hlen; lia).
    destruct (servePublicFiles_sends cwd cutOffPoisonNullByte file Hs Hb Hne Hallow)
      as [_ Hsend].
    rewrite Hcut, (replace_slash_free _ Hs Hb) in Hsend.
    apply Hsend; intros ->; simpl in Hlen; lia.
  - intros H1 H2 H3%String.eqb_neq. unfold servePublicFiles, verify.
    rewrite Hs, Hb. cbn [negb andb]. unfold endsWithAllowlistedFileType.
    rewrite H1, H2, H3. cbn [orb]. rewrite andb_false_r. reflexivity.
Qed.

End FurtherFileProperties.

(** ** Properties of the code-fix routes *)

Section CodeFixProperties.
Import CodeFixes.
Context `{Values}.

Lemma filesOf_cons key file files :
  filesOf key (file :: files)
  = if startsWith (fst file) (key +:+ "_") then file :: filesOf key files
    else filesOf key files.
Proof.
  unfold filesOf. rewrite filter_cons.
  destruct (startsWith (fst file) (key +:+ "_")).
  - rewrite decide_True by reflexivity. reflexivity.
  - rewrite decide_False by discriminate. reflexivity.
Qed.

Lemma scan_from key files acc :
  fold_left (readFile key) files acc
  = (fst acc ++ map snd (filesOf key files),
     match last (filter (λ file, length (split "_" (fst file) "") = 3%nat)
                   (filesOf key files)) with
     | Some file => decrement (parseInt (nth 1 (split "_" (fst file) "") ""))
     | None => snd acc
     end).
Proof.
  revert acc. induction files as [|file files IH]; intros [fs c].
  - simpl. rewrite app_nil_r. reflexivity.
  - cbn [fold_left]. rewrite IH, filesOf_cons. unfold readFile.
    destruct (startsWith (fst file) (key +:+ "_")) eqn:Es; [|reflexivity].
    rewrite filter_cons.
    destruct (Nat.eqb_spec (length (split "_" (fst file) "")) 3) as [E3|E3].
    + rewrite decide_True by exact E3. cbn [fst snd map].
      rewrite <- app_assoc. f_equal.
      rewrite last_cons. destruct (last _); reflexivity.
    + rewrite decide_False by exact E3. cbn [fst snd map].
      rewrite <- app_assoc. reflexivity.
Qed.

Lemma scanFixes_fixes key files :
  fixes (scanFixes key files) = map snd (filesOf key files).
Proof. unfold scanFixes. rewrite scan_from. reflexivity. Qed.

Lemma scanFixes_correct key files :
  correct (scanFixes key files)
  = match last (filter (λ file, length (split "_" (fst file) "") = 3%nat)
                  (filesOf key files)) with
    | Some file => decrement (parseInt (nth 1 (split "_" (fst file) "") ""))
    | None => minusOne
    end.
Proof. unfold scanFixes. rewrite scan_from. reflexivity. Qed.

(** X13.  What [readFixes] reads off the directory: the fixes of a key
    are the contents of the files whose names begin with the key and an
    underscore, in the order of the listing; the correct one is the
    literal -1 when none of these names has exactly three parts between
    underscores, and otherwise what [parseInt(number, 10)] gives for the
    second part of the last such name, decremented by [correct--]. *)
Theorem scanFixes_reads key files :
  fixes (scanFixes key files) = map snd (filesOf key files)
  ∧ correct (scanFixes key files)
    = match last (filter (λ file, length (split "_" (fst file) "") = 3%nat)
                    (filesOf key files)) with
      | Some file => decrement (parseInt (nth 1 (split "_" (fst file) "") ""))
      | None => minusOne
      end.
Proof.
  split; [apply scanFixes_fixes | apply scanFixes_correct].
Qed.

Lemma readFixes_again key st files' :
  readFixes key (set_directory files' (snd (readFixes key st)))
  = (fst (readFixes key st), set_directory files' (snd (readFixes key st))).
Proof.
  unfold readFixes. destruct (cache st !! key) as [cf|] eqn:E.
  - cbn [fst snd set_directory cache]. rewrite E. reflexivity.
  - destruct (inherited key) eqn:Ei; cbn [fst snd set_directory set_cache cache].
    + rewrite E. reflexivity.
    + rewrite lookup_insert_eq. reflexivity.
Qed.

(** X14.  The first answer for a key is the answer for good: whatever
    the directory holds later, [serveCodeFixes] answers a key as it
    answered it the first time, a key without fixes included; the
    directory is not read again. *)
Theorem serveCodeFixes_answers_once key st files' :
  fst (serveCodeFixes key (set_directory files' (snd (serveCodeFixes key st))))
  = fst (serveCodeFixes key st)
  ∧ directory (snd (serveCodeFixes key st)) = directory st.
Proof.
  assert (Hsnd : snd (serveCodeFixes key st) = snd (readFixes key st)).
  { unfold serveCodeFixes. destruct (readFixes key st) as [[cf|] st1]; [|reflexivity].
    destruct (length (fixes cf) =? 0)%nat; reflexivity. }
  split.
  - rewrite Hsnd. unfold serveCodeFixes at 1. rewrite readFixes_again.
    unfold serveCodeFixes. destruct (readFixes key st) as [[cf|] st1]; cbn [fst];
      [|reflexivity].
    destruct (length (fixes cf) =? 0)%nat; reflexivity.
  - rewrite Hsnd. unfold readFixes. destruct (cache st !! key); [reflexivity|].
    destruct (inherited key); reflexivity.
Qed.

Lemma readFixes_cold key st :
  cache st !! key = None → inherited key = false →
  readFixes key st
  = (Read_fix (scanFixes key (directory st)),
     set_cache (insert key (scanFixes key (directory st))) st).
Proof. intros E Ei. unfold readFixes. rewrite E, Ei. reflexivity. Qed.

Lemma no_fixes_iff key files :
  (length (fixes (scanFixes key files)) =? 0)%nat = true ↔ filesOf key files = [].
Proof.
  rewrite scanFixes_fixes, length_map.
  rewrite Nat.eqb_eq. split; [apply nil_length_inv | intros ->; reflexivity].
Qed.

(** X15.  On a key not read before, [serveCodeFixes] answers 404
    exactly when no file name of the directory begins with the key and
    an underscore, and otherwise 200 with the contents of those files in
    the order of the listing; either way the key is in the cache
    afterwards.  For a key that is a property of [Object.prototype] the
    cache look-up gives that property, and the handler raises instead of
    answering. *)
Theorem serveCodeFixes_cold key st :
  cache st !! key = None →
  (inherited key = false →
   (fst (serveCodeFixes key st) = NoFixes ↔ filesOf key (directory st) = [])
   ∧ (filesOf key (directory st) ≠ [] →
      fst (serveCodeFixes key st) = Fixes (map snd (filesOf key (directory st))))
   ∧ cache (snd (serveCodeFixes key st)) !! key
     = Some (scanFixes key (directory st)))
  ∧ (inherited key = true →
     ∃ error, serveCodeFixes key st = (Raised error, st)).
Proof.
  intros E. split.
  - intros Ei. unfold serveCodeFixes. rewrite (readFixes_cold _ _ E Ei).
    pose proof (no_fixes_iff key (directory st)) as Hiff.
    destruct (length (fixes (scanFixes key (directory st))) =? 0)%nat eqn:El;
      cbn [fst snd set_cache cache]; split_and!.
    + split; [intros _; apply Hiff; reflexivity | reflexivity].
    + intros Hne. exfalso. apply Hne, Hiff. reflexivity.
    + apply lookup_insert_eq.
    + split; [discriminate | intros Hn%Hiff; discriminate].
    + intros _. rewrite scanFixes_fixes. reflexivity.
    + apply lookup_insert_eq.
  - intros Ei. unfold serveCodeFixes, readFixes. rewrite E, Ei. eexists. reflexivity.
Qed.


End CodeFixProperties.

(** ** Further scenarios *)

Section FurtherScenarios.
Import Sample MoreSamples.

Lemma verify_opens_session_witness :
  pendingFor 2000 wurstbrotCompletion 10
  ∧ ∃ basket,
      fst (verify 2000 wurstbrotCompletion shop)
      = Send 200 (Authentication
                    (security_authorize 2000
                       (payloadOfUser (queryResultToJson (Some wurstbrot))))
                    (basket_id basket) "wurstbrot@juice-sh.op").
Proof.
  assert (Hp : pendingFor 2000 wurstbrotCompletion 10).
  { unfold pendingFor. split_and!; vm_compute; reflexivity. }
  split; [exact Hp|].
  destruct (verify_opens_session 2000 wurstbrotCompletion shop 10 wurstbrot
              "IFTXE3SPOEYVURT2#A" Hp) as (basket & E & _).
  - vm_compute. reflexivity.
  - reflexivity.
  - vm_compute. reflexivity.
  - exists basket. exact E.
Defined.

Lemma second_factor_flow_witness :
  fst (login 1000 wurstbrotLogin shop)
    = Send 401 (TotpTokenRequired (security_authorize 1000 (tmpTokenPayload 10)))
  ∧ ∃ basket,
      fst (verify 2000 wurstbrotCompletion (snd (login 1000 wurstbrotLogin shop)))
      = Send 200 (Authentication
                    (security_authorize 2000
                       (payloadOfUser (queryResultToJson (Some wurstbrot))))
                    (basket_id basket) "wurstbrot@juice-sh.op").
Proof.
  destruct (second_factor_flow 1000 2000 wurstbrotLogin wurstbrotCompletion shop
              wurstbrot "IFTXE3SPOEYVURT2#A") as (E & basket & Ev & _).
  - intros (a & Ea & _). vm_compute in Ea. discriminate.
  - vm_compute. reflexivity.
  - discriminate.
  - vm_compute. reflexivity.
  - reflexivity.
  - vm_compute. reflexivity.
  - reflexivity.
  - vm_compute. reflexivity.
  - split; [exact E|]. exists basket. exact Ev.
Defined.

Lemma completion_repeats_witness :
  ∃ token b,
    fst (verify 2500 wurstbrotCompletion (snd (verify 2000 wurstbrotCompletion shop)))
    = Send 200 (Authentication token b "wurstbrot@juice-sh.op").
Proof.
  refine (proj2 (completion_repeats 2000 2500 wurstbrotCompletion shop 10 wurstbrot
                   "IFTXE3SPOEYVURT2#A" _ _ _ _ _ _)).
  - unfold pendingFor. split_and!; vm_compute; reflexivity.
  - vm_compute. reflexivity.
  - reflexivity.
  - vm_compute. reflexivity.
  - unfold pendingFor. split_and!; vm_compute; reflexivity.
  - vm_compute. reflexivity.
Defined.

Lemma disable_clears_witness :
  fst (disable 4000 (passwordOnly jimToken "ncc-1701") jimEnrolled) = Send 200 Empty
  ∧ recordById 2 (snd (disable 4000 (passwordOnly jimToken "ncc-1701") jimEnrolled))
    = Some jim.
Proof.
  assert (Hc : disableChecks 4000 (passwordOnly jimToken "ncc-1701") jimEnrolled
                 (withSecret jim "A") (withSecret jim "A")).
  { unfold disableChecks. split_and!.
    - eexists. split; vm_compute; reflexivity.
    - exists "ncc-1701". split; reflexivity.
    - vm_compute. reflexivity. }
  pose proof (disable_clears 4000 (passwordOnly jimToken "ncc-1701") jimEnrolled)
    as (Hiff & _ & _ & _ & Hafter).
  split.
  - apply Hiff. eexists _, _. exact Hc.
  - exact (proj1 (Hafter _ _ Hc)).
Defined.

Lemma setup_through_second_session_witness :
  recordById 2 (snd (setup 3000 jimEnrollment jimTwice)) = Some (withSecret jim "A")
  ∧ fst (setup 3500 jimSecondEnrollment (snd (setup 3000 jimEnrollment jimTwice)))
    = Send 200 Empty
  ∧ recordById 2 (snd (setup 3500 jimSecondEnrollment
                         (snd (setup 3000 jimEnrollment jimTwice))))
    = Some (withSecret jim "BA").
Proof.
  refine (proj2 (setup_through_second_session 3000 3500 jimEnrollment
                   jimSecondEnrollment jimTwice jim jim jim "A" "BA" _ _ _ eq_refl)).
  - unfold setupChecks. split_and!.
    + eexists. split; vm_compute; reflexivity.
    + exists "ncc-1701". split; reflexivity.
    + reflexivity.
    + vm_compute. reflexivity.
    + vm_compute. reflexivity.
    + vm_compute. reflexivity.
    + exists "A#A". split; [reflexivity | vm_compute; reflexivity].
    + vm_compute. reflexivity.
  - unfold setupChecks. split_and!.
    + eexists. split; vm_compute; reflexivity.
    + exists "ncc-1701". split; reflexivity.
    + reflexivity.
    + vm_compute. reflexivity.
    + vm_compute. reflexivity.
    + vm_compute. reflexivity.
    + exists "BA#A". split; [reflexivity | vm_compute; reflexivity].
    + vm_compute. reflexivity.
  - vm_compute. discriminate.
Defined.

Lemma status_then_setup_witness :
  fst (setup 3000 jimEnrollment (snd (status 2000 (withToken jimToken) jimLoggedIn)))
    = Send 200 Empty
  ∧ recordById 2 (snd (setup 3000 jimEnrollment
                         (snd (status 2000 (withToken jimToken) jimLoggedIn))))
    = Some (withSecret jim "A").
Proof.
  refine (proj2 (status_then_setup 2000 3000 (withToken jimToken) jimEnrollment
                   jimLoggedIn {| data := Some jim; bid := Some 2%positive |}
                   jim jim "ncc-1701" _ _ eq_refl eq_refl _ eq_refl eq_refl _
                   eq_refl eq_refl)).
  - vm_compute. reflexivity.
  - vm_compute. reflexivity.
  - vm_compute. reflexivity.
  - vm_compute. reflexivity.
Defined.

Lemma status_follows_enrollment_witness :
  fst (status 4000 (withToken jimToken) (snd (setup 3000 jimEnrollment jimLoggedIn)))
  = Send 200 SetupDone.
Proof.
  rewrite (proj1 (status_follows_enrollment 3000 4000 jimEnrollment
                    (withToken jimToken) jimLoggedIn jimToken eq_refl eq_refl
                    ltac:(vm_compute; reflexivity)) jim jim "A").
  - reflexivity.
  - unfold setupChecks. split_and!.
    + eexists. split; vm_compute; reflexivity.
    + exists "ncc-1701". split; reflexivity.
    + reflexivity.
    + vm_compute. reflexivity.
    + vm_compute. reflexivity.
    + vm_compute. reflexivity.
    + exists "A#A". split; [reflexivity | vm_compute; reflexivity].
    + vm_compute. reflexivity.
  - discriminate.
Defined.

Lemma consecutive_failures_lock_witness :
  failedLoginAttempts
    (loginsAt [1000; 2000; 3000; 4000; 5000]
       (credentials "wurstbrot@juice-sh.op" "guess") shop) !! wurstbrotKey
    = Some {| count := 5; lastAttempt := 5000 |}
  ∧ fst (login 6000 wurstbrotLogin
           (loginsAt [1000; 2000; 3000; 4000; 5000]
              (credentials "wurstbrot@juice-sh.op" "guess") shop))
    = tooManyAttempts.
Proof.
  destruct (consecutive_failures_lock [1000; 2000; 3000; 4000; 5000]
              (credentials "wurstbrot@juice-sh.op" "guess") shop) as [E Hlock].
  - vm_compute. reflexivity.
  - vm_compute. reflexivity.
  - discriminate.
  - simpl. lia.
  - split; [exact E|].
    rewrite (Hlock eq_refl 6000 wurstbrotLogin); [reflexivity | reflexivity |].
    vm_compute. reflexivity.
Defined.

Lemma lockout_key_shared_witness :
  lockoutKey plainCaller = lockoutKey mappedCaller.
Proof.
  exact (proj1 (lockout_key_shared [] mappedCaller plainCaller "a@b.c" "::ffff"
                  "1.2.3.4" emptyWorld eq_refl eq_refl eq_refl eq_refl)).
Defined.

Lemma lockout_not_prolonged_witness :
  loginsOf [(6000, wurstbrotLogin); (7000, wurstbrotLogin)] afterFiveFailures
    = afterFiveFailures
  ∧ ∃ status body,
      fst (login 905000 wurstbrotLogin
             (loginsOf [(6000, wurstbrotLogin); (7000, wurstbrotLogin)]
                afterFiveFailures))
      = Send status body ∧ status ≠ 429.
Proof.
  apply (lockout_not_prolonged _ 905000 wurstbrotLogin afterFiveFailures
           {| count := 5; lastAttempt := 5000 |}).
  - vm_compute. reflexivity.
  - vm_compute. discriminate.
  - repeat constructor; vm_compute; reflexivity.
  - vm_compute. discriminate.
Defined.

Lemma servePublicFiles_serves_witness :
  PublicFiles.servePublicFiles posixCwd cutOffPoisonNullByte "package.json.bak%00.md"
  = SendFile "/juice-shop/ftp/package.json.bak".
Proof.
  rewrite (proj2 (servePublicFiles_serves posixCwd cutOffPoisonNullByte
                    "package.json.bak%00.md" eq_refl eq_refl
                    ltac:(discriminate) (or_introl eq_refl))).
  - vm_compute. reflexivity.
  - vm_compute. discriminate.
  - vm_compute. discriminate.
  - vm_compute. discriminate.
Defined.

Lemma servePublicFiles_without_null_byte_witness :
  PublicFiles.servePublicFiles posixCwd cutOffPoisonNullByte "legal.md"
    = SendFile "/juice-shop/ftp/legal.md"
  ∧ PublicFiles.servePublicFiles posixCwd cutOffPoisonNullByte "eastere.gg"
    = Next 403 "Only .md and .pdf files are allowed!".
Proof.
  split.
  - rewrite (proj1 (servePublicFiles_without_null_byte posixCwd cutOffPoisonNullByte
                      "legal.md" eq_refl eq_refl eq_refl) (or_introl eq_refl)).
    vm_compute. reflexivity.
  - apply (proj2 (servePublicFiles_without_null_byte posixCwd cutOffPoisonNullByte
                    "eastere.gg" eq_refl eq_refl eq_refl));
      [reflexivity | reflexivity | discriminate].
Defined.

Lemma serveCodeFixes_cold_witness :
  fst (CodeFixes.serveCodeFixes "loginAdminChallenge" fixStore)
    = CodeFixes.Fixes ["first"; "second"; "third"]
  ∧ fst (CodeFixes.serveCodeFixes "noSuchChallenge" fixStore) = CodeFixes.NoFixes
  ∧ ∃ error, CodeFixes.serveCodeFixes "constructor" fixStore
             = (CodeFixes.Raised error, fixStore).
Proof.
  split_and!.
  - rewrite (proj1 (proj2 (proj1 (serveCodeFixes_cold "loginAdminChallenge" fixStore
                                     eq_refl) eq_refl))).
    + vm_compute. reflexivity.
    + vm_compute. discriminate.
  - apply (proj1 (proj1 (serveCodeFixes_cold "noSuchChallenge" fixStore eq_refl)
                    eq_refl)).
    vm_compute. reflexivity.
  - apply (proj2 (serveCodeFixes_cold "constructor" fixStore eq_refl)). reflexivity.
Defined.


End FurtherScenarios.
